(** * mailing-list: double opt-in subscription, verified against its handlers

    Sources embedded here:
    - [src/routes/api/subscribe/+server.ts]   the subscribe handler [POST]
      (the current file, and the two earlier revisions of it kept under
      [unnamed/part_000] and [unnamed/part_001]);
    - [src/routes/confirm-subscription/+server.ts]   the confirm handler [GET];
    - [src/lib/server/email.ts]   the notifier [sendConfirmationEmail];
    - the two SQL statements the handlers send to the [subscribers] table.

    A JavaScript string is a sequence of UTF-16 code units; the table is a
    finite map keyed by its unique [email] column; what the handlers await
    from outside (the pool, [uuidv4], the SMTP transport) is an explicit
    environment, and every handler returns the store it leaves behind, its
    HTTP response and the calls it made. *)

From Stdlib Require Import NArith Ascii String List.
From stdpp Require Import gmap list strings.

(** ** JavaScript strings *)

Abbreviation jsstring := (list N) (only parsing).

(** A source literal, code unit by code unit. *)
Definition js (s : string) : jsstring :=
  map N_of_ascii (list_ascii_of_string s).

(** [!v] of JavaScript for a value that is a string, [null] or [undefined]. *)
Definition falsy (v : option jsstring) : bool :=
  match v with
  | None => true
  | Some [] => true
  | Some (_ :: _) => false
  end.

(** ** Text as the store holds it

    The driver ([pg], not part of the sources) sends a string parameter to
    the store as UTF-8: the two code units of a surrogate pair go through,
    a surrogate without its partner becomes U+FFFD. What the store holds,
    compares and gives back in [RETURNING] is that text. *)

Definition high_surrogate (u : N) : bool :=
  ((0xD800 <=? u) && (u <=? 0xDBFF))%N.

Definition low_surrogate (u : N) : bool :=
  ((0xDC00 <=? u) && (u <=? 0xDFFF))%N.

Fixpoint pg_text (s : jsstring) : jsstring :=
  match s with
  | [] => []
  | u :: rest =>
      if high_surrogate u then
        match rest with
        | v :: rest' =>
            if low_surrogate v then u :: v :: pg_text rest'
            else 0xFFFD%N :: pg_text rest
        | [] => [0xFFFD%N]
        end
      else if low_surrogate u then 0xFFFD%N :: pg_text rest
      else u :: pg_text rest
  end.

(** ** Regular expressions, as far as [emailRegex] needs them *)

Inductive regex : Type :=
| Void
| Eps
| Class (p : N → bool)
| Seq (r1 r2 : regex)
| Alt (r1 r2 : regex)
| Star (r : regex).

Definition Chr (c : string) : regex :=
  Class (λ u, bool_decide ([u] = js c)).

Definition Plus (r : regex) : regex := Seq r (Star r).

Fixpoint nullable (r : regex) : bool :=
  match r with
  | Void => false
  | Eps => true
  | Class _ => false
  | Seq r1 r2 => nullable r1 && nullable r2
  | Alt r1 r2 => nullable r1 || nullable r2
  | Star _ => true
  end.

Fixpoint deriv (u : N) (r : regex) : regex :=
  match r with
  | Void => Void
  | Eps => Void
  | Class p => if p u then Eps else Void
  | Seq r1 r2 =>
      if nullable r1
      then Alt (Seq (deriv u r1) r2) (deriv u r2)
      else Seq (deriv u r1) r2
  | Alt r1 r2 => Alt (deriv u r1) (deriv u r2)
  | Star r1 => Seq (deriv u r1) (Star r1)
  end.

(** [r.test(s)] for a pattern anchored by [^] and [$], without flags:
    the whole of [s] has to match. *)
Definition test (r : regex) (s : jsstring) : bool :=
  nullable (fold_left (λ r u, deriv u r) s r).

(** The strings a pattern denotes, which [test] decides. *)
Inductive matches : regex → jsstring → Prop :=
| matches_eps : matches Eps []
| matches_class p u : p u = true → matches (Class p) [u]
| matches_seq r1 r2 s1 s2 :
    matches r1 s1 → matches r2 s2 → matches (Seq r1 r2) (s1 ++ s2)
| matches_alt_l r1 r2 s : matches r1 s → matches (Alt r1 r2) s
| matches_alt_r r1 r2 s : matches r2 s → matches (Alt r1 r2) s
| matches_star_nil r : matches (Star r) []
| matches_star_more r s1 s2 :
    matches r s1 → matches (Star r) s2 → matches (Star r) (s1 ++ s2).

(** [\s]: WhiteSpace and LineTerminator of ECMAScript. *)
Definition white_space (u : N) : bool :=
  (((9 <=? u) && (u <=? 13))
   || (u =? 32) || (u =? 160) || (u =? 0x1680)
   || ((0x2000 <=? u) && (u <=? 0x200A))
   || (u =? 0x2028) || (u =? 0x2029) || (u =? 0x202F)
   || (u =? 0x205F) || (u =? 0x3000) || (u =? 0xFEFF))%N.

(** [[^\s@]] *)
Definition not_space_at (u : N) : bool :=
  negb (white_space u || (u =? 64)%N).

(** [/^[^\s@]+@[^\s@]+\.[^\s@]+$/] *)
Definition emailRegex : regex :=
  Seq (Plus (Class not_space_at))
   (Seq (Chr "@")
    (Seq (Plus (Class not_space_at))
     (Seq (Chr ".")
      (Plus (Class not_space_at))))).

(** ** The [subscribers] table *)

Inductive SubscriberStatus : Type := pending | confirmed | unsubscribed.

#[global] Instance SubscriberStatus_eq_dec : EqDecision SubscriberStatus.
Proof. solve_decision. Defined.

(** One row; its [email] column is the key of the table. *)
Record Subscriber : Type := mkSubscriber {
  id : nat;
  status : SubscriberStatus;
  confirmation_token : option jsstring;
  created_at : nat;
  updated_at : nat }.

(** Modelled from the spec: the schema of the table is not part of the
    sources. One record per email (the [ON CONFLICT (email)] target), an
    identifier assigned at creation from a sequence. The [email] column
    holds text: every key is a string that the driver leaves as it is. *)
Record database : Type := mkDatabase {
  subscribers : gmap jsstring Subscriber;
  id_seq : nat;
  keys_are_text :
    bool_decide (map_Forall (λ k _, pg_text k = k) subscribers) }.

Program Definition empty_database : database :=
  {| subscribers := ∅; id_seq := 1 |}.
Next Obligation. apply (bool_decide_pack _), map_Forall_empty. Qed.

(** The table with the row [r] written for the parameter [email], under
    the text that the driver sends for it, and the sequence at [seq]. *)
Program Definition write_row (db : database) (email : jsstring)
    (r : Subscriber) (seq : nat) : database :=
  {| subscribers := <[pg_text email := r]> (subscribers db); id_seq := seq |}.
Next Obligation.
  intros db email r seq. apply (bool_decide_pack _), map_Forall_insert_2;
    [| exact (bool_decide_unpack _ (keys_are_text db))].
  assert (∀ n s, length s ≤ n → pg_text (pg_text s) = pg_text s) as H;
    [| by apply (H (length email))].
  induction n as [| n IH]; intros [| u rest] Hlen; simpl in Hlen;
    [done | lia | done |].
  destruct (high_surrogate u) eqn:Hh.
  - destruct rest as [| v rest']; [simpl; by rewrite Hh |].
    destruct (low_surrogate v) eqn:Hv.
    + simpl. rewrite Hh, Hv. simpl. rewrite Hh, Hv.
      do 2 f_equal. apply IH. simpl in Hlen. lia.
    + assert (pg_text (u :: v :: rest')
              = 0xFFFD%N :: pg_text (v :: rest')) as ->.
      { simpl. by rewrite Hh, Hv. }
      remember (pg_text (v :: rest')) as y eqn:Hy. simpl.
      subst y. f_equal. apply IH. lia.
  - assert (pg_text (u :: rest)
            = (if low_surrogate u then 0xFFFD%N else u) :: pg_text rest) as ->.
    { simpl. rewrite Hh. by destruct (low_surrogate u). }
    remember (pg_text rest) as y eqn:Hy.
    destruct (low_surrogate u) eqn:Hl; simpl; [| rewrite Hh, Hl];
      subst y; f_equal; apply IH; lia.
Qed.

(** The table with every row changed by [f], under the same keys. *)
Program Definition map_rows (f : Subscriber → Subscriber) (db : database)
    : database :=
  {| subscribers := f <$> subscribers db; id_seq := id_seq db |}.
Next Obligation.
  intros f db. apply (bool_decide_pack _), map_Forall_fmap.
  exact (bool_decide_unpack _ (keys_are_text db)).
Qed.

(** Rows of [RETURNING id, status, email] and of [RETURNING id, email]. *)
Record upsert_row : Type := mkUpsertRow {
  ur_id : nat; ur_status : SubscriberStatus; ur_email : jsstring }.

Record confirm_row : Type := mkConfirmRow {
  cr_id : nat; cr_email : jsstring }.

(** [CASE WHEN subscribers.status = 'unsubscribed' THEN 'pending'
          ELSE subscribers.status END] *)
Definition case_status (s : SubscriberStatus) : SubscriberStatus :=
  match s with
  | unsubscribed => pending
  | _ => s
  end.

(** [INSERT INTO subscribers(email, status, confirmation_token, created_at,
    updated_at) VALUES($1, 'pending', $2, NOW(), NOW())
    ON CONFLICT (email) DO UPDATE SET confirmation_token =
    EXCLUDED.confirmation_token, status = CASE ... END, updated_at = NOW()
    RETURNING id, status, email], the statement of the current handler.
    The row is found, written and returned under the text of [$1]; a value
    of the sequence is drawn for the proposed row, also when the statement
    ends in its conflict branch. *)
Definition upsert_subscriber (now : nat) (email token : jsstring)
    (db : database) : database * list upsert_row :=
  match subscribers db !! pg_text email with
  | None =>
      let r := {| id := id_seq db; status := pending;
                  confirmation_token := Some token;
                  created_at := now; updated_at := now |} in
      (write_row db email r (S (id_seq db)),
       [mkUpsertRow (id r) (status r) (pg_text email)])
  | Some old =>
      let r := {| id := id old; status := case_status (status old);
                  confirmation_token := Some token;
                  created_at := created_at old; updated_at := now |} in
      (write_row db email r (S (id_seq db)),
       [mkUpsertRow (id r) (status r) (pg_text email)])
  end.

(** Modelled from the spec: the default of [created_at] and [updated_at]
    (the schema is not part of the sources) is the time of the write. *)
Definition timestamp_default (now : nat) : nat := now.

(** The statement of the two earlier revisions: the same, without the
    timestamp columns. *)
Definition upsert_subscriber_0 (now : nat) (email token : jsstring)
    (db : database) : database * list upsert_row :=
  match subscribers db !! pg_text email with
  | None =>
      let r := {| id := id_seq db; status := pending;
                  confirmation_token := Some token;
                  created_at := timestamp_default now;
                  updated_at := timestamp_default now |} in
      (write_row db email r (S (id_seq db)),
       [mkUpsertRow (id r) (status r) (pg_text email)])
  | Some old =>
      let r := {| id := id old; status := case_status (status old);
                  confirmation_token := Some token;
                  created_at := created_at old;
                  updated_at := updated_at old |} in
      (write_row db email r (S (id_seq db)),
       [mkUpsertRow (id r) (status r) (pg_text email)])
  end.

(** [WHERE confirmation_token = $1 AND status = 'pending'] *)
Definition awaits (token : jsstring) (r : Subscriber) : Prop :=
  confirmation_token r = Some token ∧ status r = pending.

#[global] Instance awaits_dec token r : Decision (awaits token r).
Proof. unfold awaits. apply _. Defined.

(** [SET status = 'confirmed', confirmation_token = NULL] *)
Definition confirm_row_of (r : Subscriber) : Subscriber :=
  {| id := id r; status := confirmed; confirmation_token := None;
     created_at := created_at r; updated_at := updated_at r |}.

(** [UPDATE subscribers SET status = 'confirmed', confirmation_token = NULL
    WHERE confirmation_token = $1 AND status = 'pending'
    RETURNING id, email]: one statement, every matching row is updated and
    returned. *)
Definition confirm_by_token (token : jsstring) (db : database)
    : database * list confirm_row :=
  (map_rows (λ r, if decide (awaits token r) then confirm_row_of r else r) db,
   (λ kr, mkConfirmRow (id kr.2) kr.1)
     <$> map_to_list (filter (λ kr, awaits token kr.2) (subscribers db))).

(** ** What a handler awaits from outside *)

(** The value a rejected promise carries: an [Error] with its message, or
    some other value that is not an [Error] (and neither [null] nor
    [undefined]: the pool and the notifier reject with objects). *)
Inductive thrown : Type :=
| Error (message : jsstring)
| not_an_Error.

Inductive statement : Type :=
| SELECT_1
| INSERT_ON_CONFLICT (email token : jsstring)
| UPDATE_WHERE_TOKEN (token : jsstring).

(** The calls a handler makes to its collaborators, in order. *)
Inductive call : Type :=
| db_query (q : statement)
| notify (to token : jsstring).

#[global] Instance statement_eq_dec : EqDecision statement.
Proof. solve_decision. Defined.

#[global] Instance call_eq_dec : EqDecision call.
Proof. solve_decision. Defined.

Definition is_notify (c : call) : bool :=
  match c with notify _ _ => true | db_query _ => false end.

(** One request's view of the outside: whether [db.query('SELECT 1')] and
    the data statement resolve ([None]) or reject, what [uuidv4()] and
    [NOW()] give, and what [sendConfirmationEmail] does with its argument.
    A statement rejects for any reason of the pool or of the server, a lost
    connection as well as a parameter that the server refuses, and then
    leaves the table as it was. [uuidv4()] gives hexadecimal digits and
    hyphens, text that the driver leaves as it is. *)
Record environment : Type := mkEnvironment {
  select_1 : option thrown;
  data_query : option thrown;
  uuidv4 : jsstring;
  NOW : nat;
  sendConfirmationEmail : jsstring → jsstring → option thrown }.

(** [json({ message }, { status })] *)
Record Response : Type := json {
  message : jsstring;
  status_code : nat }.

#[global] Instance Response_eq_dec : EqDecision Response.
Proof. solve_decision. Defined.

Record outcome : Type := mkOutcome {
  store : database;
  response : Response;
  calls : list call }.

(** ** [src/lib/server/email.ts]

    The current notifier. A handler sees of it only whether it returns or
    throws. *)

Module Email.

Record config : Type := mkConfig {
  VITE_SMTP_USERNAME : option jsstring;
  VITE_SMTP_PASSWORD : option jsstring;
  VITE_BASE_URL : option jsstring }.

(** What [transporter.sendMail] rejects with. *)
Record smtp_error : Type := mkSmtpError {
  code : option jsstring;
  error_message : jsstring }.

(** The fields of [mailOptions] that vary; [subject], [html] and [text] are
    fixed text around [confirmationLink]. *)
Record mailOptions : Type := mkMailOptions {
  from : jsstring;
  to : jsstring;
  confirmationLink : jsstring }.

Definition text_of (v : option jsstring) : jsstring :=
  match v with Some s => s | None => js "undefined" end.

Definition userFriendlyMessage (c : option jsstring) : jsstring :=
  if decide (c = Some (js "EAUTH"))
  then js "Email authentication failed - please contact support"
  else if decide (c = Some (js "ECONNECTION"))
  then js "Email service connection failed - please try again"
  else if decide (c = Some (js "ETIMEDOUT"))
  then js "Email service timeout - please try again"
  else js "Failed to send confirmation email".

Definition sendConfirmationEmail (cfg : config)
    (sendMail : mailOptions → option smtp_error)
    (to token : jsstring) : option thrown :=
  if falsy (VITE_SMTP_USERNAME cfg) || falsy (VITE_SMTP_PASSWORD cfg)
  then Some (Error
         (js "Email service not configured - missing SMTP credentials"))
  else if falsy (VITE_BASE_URL cfg)
  then Some (Error (js "Email service not configured - missing base URL"))
  else
    let link := text_of (VITE_BASE_URL cfg)
                ++ js "/confirm-subscription?token=" ++ token in
    let mail :=
      {| from := [34%N] ++ js "Your Newsletter" ++ [34%N] ++ js " <"
                 ++ text_of (VITE_SMTP_USERNAME cfg) ++ js ">";
         to := to; confirmationLink := link |} in
    match sendMail mail with
    | None => None
    | Some error =>
        Some (Error (userFriendlyMessage (code error)
                     ++ js ". Original error: " ++ error_message error))
    end.

End Email.

(** The two earlier revisions of the notifier, alike up to the names of
    their settings: no configuration check, a default for the site URL, and
    one fixed message for every failure of the transport. *)
Module Email0.

Record mail : Type := mkMail {
  to : jsstring;
  confirmationLink : jsstring }.

Definition sendConfirmationEmail (PUBLIC_SITE_URL : option jsstring)
    (sendMail : mail → option Email.smtp_error)
    (to token : jsstring) : option thrown :=
  let site :=
    if falsy PUBLIC_SITE_URL then js "http://localhost:5173"
    else default [] PUBLIC_SITE_URL in
  let link := site ++ js "/confirm-subscription?token=" ++ token in
  match sendMail {| to := to; confirmationLink := link |} with
  | None => None
  | Some _ => Some (Error (js "Failed to send confirmation email"))
  end.

End Email0.

(** ** [src/routes/api/subscribe/+server.ts] *)

(** An [email] property that is not a string ([request.json()] is not
    typed at run time). A number or a boolean is truthy or not and has a
    string conversion, which is also the parameter that the driver makes of
    it for [$1]. An array or an object is truthy; its string conversion,
    used by a template literal and by [emailRegex.test], is a string or
    throws ([None]: an object whose [toString] and [valueOf] are not
    functions); the driver makes its own text of it, an array literal or
    a JSON text. *)
Inductive other_value : Type :=
| primitive (truthy : bool) (ToString : jsstring)
| object (ToString : option jsstring) (prepareValue : jsstring).

Definition truthy (v : other_value) : bool :=
  match v with
  | primitive truthy _ => truthy
  | object _ _ => true
  end.

Definition ToString (v : other_value) : option jsstring :=
  match v with
  | primitive _ ToString => Some ToString
  | object ToString _ => ToString
  end.

Definition prepareValue (v : other_value) : jsstring :=
  match v with
  | primitive _ ToString => ToString
  | object _ prepareValue => prepareValue
  end.

(** What [await request.json()] gives: it rejects, or it is the JSON
    [null], or it is a value whose [email] property is a string or absent,
    or one whose [email] property is another value. *)
Inductive request_body : Type :=
| unparseable
| json_null
| json_value (email : option jsstring)
| json_other (email : other_value).

(** What the handler reads of [email]: whether its conversion to a string
    returns, whether [!email] holds, the string under the format check, and
    the parameter of the statement. *)
Definition converts (request : request_body) : bool :=
  match request with
  | json_other v => match ToString v with Some _ => true | None => false end
  | unparseable | json_null | json_value _ => true
  end.

Definition not_email (request : request_body) : bool :=
  match request with
  | json_value email => falsy email
  | json_other v => negb (truthy v)
  | unparseable | json_null => true
  end.

Definition email_string (request : request_body) : jsstring :=
  match request with
  | json_value email => default [] email
  | json_other v => default [] (ToString v)
  | unparseable | json_null => []
  end.

Definition email_parameter (request : request_body) : jsstring :=
  match request with
  | json_value email => default [] email
  | json_other v => prepareValue v
  | unparseable | json_null => []
  end.

(** The branch on the row returned by the upsert, in the current handler. *)
Definition after_upsert (env : environment) (db' : database)
    (before : list call) (token : jsstring) (rows : list upsert_row)
    : outcome :=
  match rows with
  | row :: _ =>
      let subscriberStatus := ur_status row in
      let subscriberEmail := ur_email row in
      if decide (subscriberStatus = confirmed)
      then mkOutcome db'
             (json (js "You are already subscribed and confirmed!") 200)
             before
      else
        match sendConfirmationEmail env subscriberEmail token with
        | None =>
            mkOutcome db'
              (json (js "Please check your email to confirm your subscription!")
                 200)
              (before ++ [notify subscriberEmail token])
        | Some emailSendError =>
            mkOutcome db'
              (json (js "Failed to send confirmation email. Please try again or contact support.")
                 500)
              (before ++ [notify subscriberEmail token])
        end
  | [] =>
      mkOutcome db'
        (json (js "Failed to process subscription request. Please try again.")
           500)
        before
  end.

(** The current handler. *)
Definition POST (env : environment) (db : database) (request : request_body)
    : outcome :=
  match request with
  | unparseable =>
      mkOutcome db (json (js "Invalid request format.") 400) []
  | json_null =>
      mkOutcome db
        (json (js "Internal server error occurred. Please try again later.")
           500) []
  | json_value _ | json_other _ =>
      if negb (converts request)
      then mkOutcome db
             (json (js "Internal server error occurred. Please try again later.")
                500) []
      else if not_email request
      then mkOutcome db (json (js "Email address is required.") 400) []
      else
        let email := email_parameter request in
        if negb (test emailRegex (email_string request))
        then mkOutcome db
               (json (js "Please enter a valid email address format.") 400) []
        else
          match select_1 env with
          | Some dbTestError =>
              mkOutcome db
                (json (js "Database service unavailable. Please try again later.")
                   503)
                [db_query SELECT_1]
          | None =>
              let token := uuidv4 env in
              let issued :=
                [db_query SELECT_1;
                 db_query (INSERT_ON_CONFLICT email token)] in
              match data_query env with
              | Some dbError =>
                  mkOutcome db
                    (json (js "Database error occurred. Please try again later.")
                       500)
                    issued
              | None =>
                  let '(db', rows) :=
                    upsert_subscriber (NOW env) email token db in
                  after_upsert env db' issued token rows
              end
          end
  end.

(** The revision under [unnamed/part_000]: no connection test, one [catch]
    around the statement and the notifier, and a body that does not parse
    ends in the outermost [catch]. *)
Module Part000.

Definition POST (env : environment) (db : database) (request : request_body)
    : outcome :=
  match request with
  | unparseable | json_null =>
      mkOutcome db (json (js "Internal server error occurred.") 500) []
  | json_value _ | json_other _ =>
      if not_email request
      then mkOutcome db (json (js "Email address is required.") 400) []
      else if negb (converts request)
      then mkOutcome db (json (js "Internal server error occurred.") 500) []
      else
        let email := email_parameter request in
        if negb (test emailRegex (email_string request))
        then mkOutcome db
               (json (js "Please enter a valid email address format.") 400) []
        else
          let token := uuidv4 env in
          let issued := [db_query (INSERT_ON_CONFLICT email token)] in
          let dbOrEmailError :=
            json (js "Failed to subscribe. Please try again later.") 500 in
          match data_query env with
          | Some _ => mkOutcome db dbOrEmailError issued
          | None =>
              let '(db', rows) :=
                upsert_subscriber_0 (NOW env) email token db in
              match rows with
              | row :: _ =>
                  if decide (ur_status row = confirmed)
                  then mkOutcome db'
                         (json (js "You are already subscribed and confirmed!")
                            200)
                         issued
                  else
                    match sendConfirmationEmail env (ur_email row) token with
                    | None =>
                        mkOutcome db'
                          (json (js "Please check your email to confirm your subscription!")
                             200)
                          (issued ++ [notify (ur_email row) token])
                    | Some _ =>
                        mkOutcome db' dbOrEmailError
                          (issued ++ [notify (ur_email row) token])
                    end
              | [] =>
                  mkOutcome db'
                    (json (js "Failed to process subscription request. Please try again.")
                       500)
                    issued
              end
          end
  end.

End Part000.

(** The revision under [unnamed/part_001]: the notifier has a [catch] of its
    own, which answers 200. *)
Module Part001.

Definition POST (env : environment) (db : database) (request : request_body)
    : outcome :=
  match request with
  | unparseable | json_null =>
      mkOutcome db (json (js "Internal server error occurred.") 500) []
  | json_value _ | json_other _ =>
      if negb (converts request)
      then mkOutcome db (json (js "Internal server error occurred.") 500) []
      else if not_email request
      then mkOutcome db (json (js "Email address is required.") 400) []
      else
        let email := email_parameter request in
        if negb (test emailRegex (email_string request))
        then mkOutcome db
               (json (js "Please enter a valid email address format.") 400) []
        else
          let token := uuidv4 env in
          let issued := [db_query (INSERT_ON_CONFLICT email token)] in
          match data_query env with
          | Some _ =>
              mkOutcome db
                (json (js "Database error occurred. Please try again later.")
                   500)
                issued
          | None =>
              let '(db', rows) :=
                upsert_subscriber_0 (NOW env) email token db in
              match rows with
              | row :: _ =>
                  if decide (ur_status row = confirmed)
                  then mkOutcome db'
                         (json (js "You are already subscribed and confirmed!")
                            200)
                         issued
                  else
                    match sendConfirmationEmail env (ur_email row) token with
                    | None =>
                        mkOutcome db'
                          (json (js "Please check your email to confirm your subscription!")
                             200)
                          (issued ++ [notify (ur_email row) token])
                    | Some _ =>
                        mkOutcome db'
                          (json (js "Subscription saved! Please check your email or contact support if you don't receive confirmation.")
                             200)
                          (issued ++ [notify (ur_email row) token])
                    end
              | [] =>
                  mkOutcome db'
                    (json (js "Failed to process subscription request. Please try again.")
                       500)
                    issued
              end
          end
  end.

End Part001.

(** ** [src/routes/confirm-subscription/+server.ts] *)

Inductive console_call : Type :=
| console_log (args : list jsstring)
| console_warn (args : list jsstring)
| console_error (args : list jsstring).

Record confirm_outcome : Type := mkConfirmOutcome {
  c_store : database;
  c_response : Response;
  c_calls : list call;
  c_console : list console_call }.

(** [(dbError instanceof Error) ? dbError.message : '...'] *)
Definition errorMessage (dbError : thrown) : jsstring :=
  match dbError with
  | Error m => m
  | not_an_Error =>
      js "An unknown database error occurred during confirmation."
  end.

(** The handler, from the value of [url.searchParams.get('token')] ([None]
    for [null]) and from whether the statement resolves. *)
Definition GET (query : option thrown) (db : database)
    (token : option jsstring) : confirm_outcome :=
  if falsy token
  then mkConfirmOutcome db
         (json (js "Confirmation token is missing from the link.") 400)
         []
         [console_warn [js "Confirmation attempt with missing token"]]
  else
    let token := default [] token in
    let issued := [db_query (UPDATE_WHERE_TOKEN token)] in
    match query with
    | Some dbError =>
        mkConfirmOutcome db
          (json (js "An error occurred during confirmation. Please try again.")
             500)
          issued
          [console_error [js "Database error during confirmation:";
                          errorMessage dbError]]
    | None =>
        let '(db', rows) := confirm_by_token token db in
        match rows with
        | row :: _ =>
            let confirmedEmail := cr_email row in
            mkConfirmOutcome db'
              (json (js "Your subscription has been successfully confirmed!")
                 200)
              issued
              [console_log [js "Subscription successfully confirmed for: "
                            ++ confirmedEmail]]
        | [] =>
            mkConfirmOutcome db'
              (json (js "Invalid or expired confirmation link, or subscription already confirmed.")
                 404)
              issued
              [console_warn
                 [js "Invalid, expired, or already used confirmation token: "
                  ++ token]]
        end
    end.

(** ** Vocabulary of the statements below *)

(** [email] is the one row that [token] can confirm. *)
Definition only_awaiting (db : database) (token email : jsstring)
    (r : Subscriber) : Prop :=
  subscribers db !! email = Some r ∧ awaits token r ∧
  ∀ email' r',
    subscribers db !! email' = Some r' → awaits token r' → email' = email.

(** No row can be confirmed by [token]. *)
Definition none_awaiting (db : database) (token : jsstring) : Prop :=
  ∀ email r, subscribers db !! email = Some r → ¬ awaits token r.

(** The email passes both checks of the subscribe handler. *)
Definition accepted (email : jsstring) : Prop :=
  falsy (Some email) = false ∧ test emailRegex email = true.

(** The body passes both checks of a subscribe handler. *)
Definition passes (body : request_body) : Prop :=
  converts body = true ∧ not_email body = false
  ∧ test emailRegex (email_string body) = true.

(** The text under which the store holds the address of a body. *)
Definition stored_address (body : request_body) : jsstring :=
  pg_text (email_parameter body).

(** The status the upsert leaves on the row of an address. *)
Definition status_after_upsert (before : option Subscriber)
    : SubscriberStatus :=
  match before with
  | None => pending
  | Some old =>
      match status old with
      | unsubscribed => pending
      | pending => pending
      | confirmed => confirmed
      end
  end.

(** [db'] is [db] after an upsert of [email] with [token]: the row of
    [email] holds the token and the recomputed status, created if it was
    not there; every other row is as before. *)
Definition upsert_effect (db db' : database) (email token : jsstring)
    : Prop :=
  (∀ other, other ≠ email →
     subscribers db' !! other = subscribers db !! other)
  ∧ ∃ r, subscribers db' !! email = Some r
      ∧ confirmation_token r = Some token
      ∧ status r = status_after_upsert (subscribers db !! email).

(** The notifier calls among the calls of a handler. *)
Definition notifications (cs : list call) : list call :=
  filter (λ c, is_notify c = true) cs.

(** One request served by the current handlers. *)
Inductive request : Type :=
| Subscribe (env : environment) (body : request_body)
| Confirm (query : option thrown) (token : option jsstring).

Definition serve (rq : request) (db : database) : database :=
  match rq with
  | Subscribe env body => store (POST env db body)
  | Confirm query token => c_store (GET query db token)
  end.

(** The stores that Subscribe and Confirm requests, served one after the
    other, lead to from the empty table. *)
Inductive reachable : database → Prop :=
| reachable_empty : reachable empty_database
| reachable_serve rq db : reachable db → reachable (serve rq db).

(** What holds of every row of a reachable store: it is pending or
    confirmed, and while it is pending it holds a token. *)
Definition sound_row (r : Subscriber) : Prop :=
  status r ≠ unsubscribed
  ∧ (status r = pending → confirmation_token r ≠ None).

(** [rq] is a Confirm request that succeeds on [db] and whose token is the
    one that the pending row [r] holds. *)
Definition confirms (rq : request) (db : database) (r : Subscriber) : Prop :=
  match rq with
  | Confirm query (Some token) =>
      status_code (c_response (GET query db (Some token))) = 200
      ∧ awaits token r
  | _ => False
  end.

(** ** Two Confirm requests at once

    The confirm handler reads and writes the store in its one statement,
    which the store executes as one indivisible step. A request in flight
    has either not got to its statement yet, or is about to execute it, or
    has answered; requests interleave step by step on the shared store. *)
Inductive in_flight : Type :=
| received (token : option jsstring)
| awaiting (token : jsstring)
| answered (r : Response).

(** One step of a request: the code before the [await], then the statement
    on the store as it is at that moment, with the code that follows it. *)
Definition advance (query : option thrown) (th : in_flight) (db : database)
    : in_flight * database :=
  match th with
  | received token =>
      if falsy token
      then (answered (c_response (GET query db token)), db)
      else (awaiting (default [] token), db)
  | awaiting token =>
      let o := GET query db (Some token) in
      (answered (c_response o), c_store o)
  | answered r => (answered r, db)
  end.






(** ** Sample data *)

Definition alice : jsstring := js "a@example.com".

Definition pending_row (token : jsstring) : Subscriber :=
  {| id := 1; status := pending; confirmation_token := Some token;
     created_at := 0; updated_at := 0 |}.

(** A table with one row, pending on [token]. *)
Program Definition one_pending (token : jsstring) : database :=
  {| subscribers := {[ alice := pending_row token ]}; id_seq := 2 |}.
Next Obligation.
  intros token. apply (bool_decide_pack _), map_Forall_singleton.
  vm_compute. reflexivity.
Qed.

(** Both statements resolve, the notifier delivers. *)
Definition calm (token : jsstring) : environment :=
  {| select_1 := None; data_query := None; uuidv4 := token; NOW := 7;
     sendConfirmationEmail := λ _ _, None |}.

Definition configured : Email.config :=
  {| Email.VITE_SMTP_USERNAME := Some (js "news@example.com");
     Email.VITE_SMTP_PASSWORD := Some (js "secret");
     Email.VITE_BASE_URL := Some (js "https://example.com") |}.

(** Both statements resolve, the SMTP server refuses the connection. *)
Definition smtp_down (token : jsstring) : environment :=
  {| select_1 := None; data_query := None; uuidv4 := token; NOW := 7;
     sendConfirmationEmail :=
       Email.sendConfirmationEmail configured
         (λ _, Some {| Email.code := Some (js "ECONNECTION");
                       Email.error_message := js "connect ECONNREFUSED" |}) |}.

(** The pool is down: every statement rejects. *)
Definition store_down (token : jsstring) : environment :=
  {| select_1 := Some (Error (js "connect ECONNREFUSED"));
     data_query := Some (Error (js "connect ECONNREFUSED"));
     uuidv4 := token; NOW := 7;
     sendConfirmationEmail := λ _ _, None |}.

(** One Subscribe request served on the empty table. *)
Definition subscribed_once : database :=
  serve (Subscribe (calm (js "T1")) (json_value (Some alice)))
    empty_database.

Definition bob : jsstring := js "b@example.com".

(** One Subscribe request of another address served on the empty table,
    with the same token. *)
Definition bob_subscribed_once : database :=
  serve (Subscribe (calm (js "T1")) (json_value (Some bob)))
    empty_database.

(** Subscribe, confirm, subscribe again: three requests for one address. *)
Definition resubscribed : database :=
  serve (Subscribe (calm (js "T2")) (json_value (Some alice)))
    (serve (Confirm None (Some (js "T1")))
       (serve (Subscribe (calm (js "T1")) (json_value (Some alice)))
          empty_database)).

(** ** Vocabulary of the further properties *)

(** The answers of the current subscribe handler that come without a
    write, and those that follow the upsert. *)
Definition unwritten_answers : list Response :=
  [json (js "Invalid request format.") 400;
   json (js "Internal server error occurred. Please try again later.") 500;
   json (js "Email address is required.") 400;
   json (js "Please enter a valid email address format.") 400;
   json (js "Database service unavailable. Please try again later.") 503;
   json (js "Database error occurred. Please try again later.") 500].

Definition written_answers : list Response :=
  [json (js "You are already subscribed and confirmed!") 200;
   json (js "Please check your email to confirm your subscription!") 200;
   json (js "Failed to send confirmation email. Please try again or contact support.")
     500].

(** The answers of the confirm handler. *)
Definition GET_answers : list Response :=
  [json (js "Confirmation token is missing from the link.") 400;
   json (js "An error occurred during confirmation. Please try again.") 500;
   json (js "Your subscription has been successfully confirmed!") 200;
   json (js "Invalid or expired confirmation link, or subscription already confirmed.")
     404].

(** The answer of the branch for a statement that returned no row. *)
Definition no_row_answer : Response :=
  json (js "Failed to process subscription request. Please try again.") 500.

(** A row without its timestamps. *)
Definition but_timestamps (r : Subscriber)
    : nat * SubscriberStatus * option jsstring :=
  (id r, status r, confirmation_token r).

(** Requests served one after the other. *)
Definition serve_all (rqs : list request) (db : database) : database :=
  foldl (λ db rq, serve rq db) db rqs.

(** The changes of status that one request can make to a row. *)
Definition may_become (before after : SubscriberStatus) : Prop :=
  match before, after with
  | pending, pending | pending, confirmed
  | confirmed, confirmed
  | unsubscribed, unsubscribed | unsubscribed, pending => True
  | _, _ => False
  end.

(** Both statements resolve, the notifier of [email.ts] has no setting. *)
Definition unconfigured (token : jsstring) : environment :=
  {| select_1 := None; data_query := None; uuidv4 := token; NOW := 7;
     sendConfirmationEmail :=
       Email.sendConfirmationEmail (Email.mkConfig None None None)
         (λ _, None) |}.

(** A table with one row, of an address that has opted out. *)
Program Definition opted_out : database :=
  {| subscribers :=
       {[ alice := {| id := 1; status := unsubscribed;
                      confirmation_token := None;
                      created_at := 3; updated_at := 5 |} ]};
     id_seq := 2 |}.
Next Obligation.
  apply (bool_decide_pack _), map_Forall_singleton.
  vm_compute. reflexivity.
Qed.

(** * Properties *)

(** ** [test] decides the language of the pattern *)

Section Regex.
Implicit Types (r : regex) (s : jsstring) (u : N).

Lemma nullable_matches r : nullable r = true ↔ matches r [].
Proof.
  split.
  - induction r as [| | p | r1 IH1 r2 IH2 | r1 IH1 r2 IH2 | r IH]; simpl;
      intros H; try discriminate.
    + constructor.
    + apply andb_true_iff in H as [H1 H2].
      apply (matches_seq r1 r2 [] []); auto.
    + apply orb_true_iff in H as [H | H];
        [apply matches_alt_l | apply matches_alt_r]; auto.
    + constructor.
  - intros H. remember [] as s eqn:Hs. revert Hs.
    induction H as [| p u Hp | r1 r2 s1 s2 _ IH1 _ IH2 | r1 r2 s _ IH
                    | r1 r2 s _ IH | r | r s1 s2 _ _ _ _];
      intros Hs; simpl; try done.
    + apply app_eq_nil in Hs as [-> ->]. by rewrite IH1, IH2.
    + by rewrite IH.
    + rewrite IH by done. apply orb_true_r.
Qed.

Lemma matches_class_inv (p : N → bool) s :
  matches (Class p) s → ∃ u, s = [u] ∧ p u = true.
Proof. intros H. inversion H; subst. by eexists. Qed.

Lemma matches_seq_inv r1 r2 s :
  matches (Seq r1 r2) s →
  ∃ s1 s2, s = s1 ++ s2 ∧ matches r1 s1 ∧ matches r2 s2.
Proof. intros H. inversion H; subst. by eexists _, _. Qed.

Lemma matches_alt_inv r1 r2 s :
  matches (Alt r1 r2) s → matches r1 s ∨ matches r2 s.
Proof. intros H. inversion H; subst; [by left | by right]. Qed.

(** A non-empty match of [r*] starts with a non-empty match of [r]. *)
Lemma matches_star_head r u s :
  matches (Star r) (u :: s) →
  ∃ s1 s2, s = s1 ++ s2 ∧ matches r (u :: s1) ∧ matches (Star r) s2.
Proof.
  intros H. remember (Star r) as r' eqn:Hr'. remember (u :: s) as s' eqn:Hs'.
  revert Hr' Hs'.
  induction H as [| | | | | | r0 s1 s2 H1 _ H2 IH2]; intros Hr' Hs'; try done.
  injection Hr' as ->.
  destruct s1 as [| u1 s1]; simpl in Hs'; [by apply IH2 |].
  injection Hs' as -> <-. by exists s1, s2.
Qed.

Lemma deriv_matches r u s : matches (deriv u r) s ↔ matches r (u :: s).
Proof.
  revert s.
  induction r as [| | p | r1 IH1 r2 IH2 | r1 IH1 r2 IH2 | r IH];
    intros s; simpl.
  - split; intros H; inversion H.
  - split; intros H; inversion H.
  - split.
    + intros H. destruct (p u) eqn:Hp; inversion H; subst. by constructor.
    + intros (u' & [= -> ->] & Hp)%matches_class_inv. rewrite Hp.
      constructor.
  - assert (matches (Seq (deriv u r1) r2) s ↔
            ∃ s1 s2, s = s1 ++ s2 ∧ matches r1 (u :: s1) ∧ matches r2 s2)
      as Hleft.
    { split.
      - intros (s1 & s2 & -> & H1 & H2)%matches_seq_inv.
        exists s1, s2. by rewrite <- IH1.
      - intros (s1 & s2 & -> & H1 & H2). apply matches_seq; [| done].
        by apply IH1. }
    split.
    + intros H.
      assert (matches (Seq (deriv u r1) r2) s
              ∨ (nullable r1 = true ∧ matches (deriv u r2) s)) as [H' | H'].
      { destruct (nullable r1); [| by left].
        apply matches_alt_inv in H as [H | H]; [by left | by right]. }
      * apply Hleft in H' as (s1 & s2 & -> & H1 & H2).
        by apply (matches_seq r1 r2 (u :: s1) s2).
      * destruct H' as [Hnull H2]. apply nullable_matches in Hnull.
        apply IH2 in H2. by apply (matches_seq r1 r2 [] (u :: s)).
    + intros (s1 & s2 & Hs & H1 & H2)%matches_seq_inv.
      destruct s1 as [| u1 s1]; simpl in Hs.
      * subst s2. apply nullable_matches in H1. rewrite H1.
        apply matches_alt_r. by apply IH2.
      * injection Hs as <- ->.
        assert (matches (Seq (deriv u r1) r2) (s1 ++ s2)) as Hseq.
        { apply Hleft. by exists s1, s2. }
        destruct (nullable r1); [by apply matches_alt_l | done].
  - split.
    + intros [H | H]%matches_alt_inv;
        [apply matches_alt_l, IH1 | apply matches_alt_r, IH2]; done.
    + intros [H | H]%matches_alt_inv;
        [apply matches_alt_l, IH1 | apply matches_alt_r, IH2]; done.
  - split.
    + intros (s1 & s2 & -> & H1 & H2)%matches_seq_inv.
      apply IH in H1. by apply (matches_star_more r (u :: s1) s2).
    + intros (s1 & s2 & -> & H1 & H2)%matches_star_head.
      apply matches_seq; [by apply IH | done].
Qed.

Theorem test_matches r s : test r s = true ↔ matches r s.
Proof.
  unfold test. revert r. induction s as [| u s IH]; intros r; simpl.
  - apply nullable_matches.
  - rewrite IH. apply deriv_matches.
Qed.

Lemma matches_star_class (p : N → bool) s :
  matches (Star (Class p)) s ↔ Forall (λ u, p u = true) s.
Proof.
  split.
  - intros H. remember (Star (Class p)) as r eqn:Hr. revert Hr.
    induction H as [| | | | | | r0 s1 s2 H1 _ H2 IH2]; intros Hr; try done.
    injection Hr as ->.
    apply matches_class_inv in H1 as (u & -> & Hu).
    constructor; auto.
  - induction 1 as [| u s Hu _ IH]; [constructor |].
    apply (matches_star_more (Class p) [u] s); [by constructor | done].
Qed.

Lemma matches_plus_class (p : N → bool) s :
  matches (Plus (Class p)) s ↔ s ≠ [] ∧ Forall (λ u, p u = true) s.
Proof.
  unfold Plus. split.
  - intros (s1 & s2 & -> & H1 & H2)%matches_seq_inv.
    apply matches_class_inv in H1 as (u & -> & Hu).
    apply matches_star_class in H2. split; [done |]. by constructor.
  - intros [Hne Hall]. destruct Hall as [| u s Hu Hs]; [done |].
    apply (matches_seq (Class p) (Star (Class p)) [u] s); [by constructor |].
    by apply matches_star_class.
Qed.

Lemma matches_chr (c : string) s : matches (Chr c) s ↔ s = js c ∧ length s = 1.
Proof.
  unfold Chr. split.
  - intros (u & -> & Hu)%matches_class_inv.
    by apply bool_decide_eq_true in Hu.
  - intros [Hs Hlen]. destruct s as [| u [| ? ?]]; try done.
    constructor. by apply bool_decide_eq_true.
Qed.

Lemma emailRegex_language s :
  matches emailRegex s ↔
  ∃ l d e, s = l ++ js "@" ++ d ++ js "." ++ e
    ∧ l ≠ [] ∧ d ≠ [] ∧ e ≠ []
    ∧ Forall (λ u, not_space_at u = true) (l ++ d ++ e).
Proof.
  unfold emailRegex. split.
  - intros (l & s1 & -> & Hl & H1)%matches_seq_inv.
    apply matches_seq_inv in H1 as (a & s2 & -> & Ha & H2).
    apply matches_seq_inv in H2 as (d & s3 & -> & Hd & H3).
    apply matches_seq_inv in H3 as (b & e & -> & Hb & He).
    apply matches_plus_class in Hl as [? ?], Hd as [? ?], He as [? ?].
    apply matches_chr in Ha as [-> _], Hb as [-> _].
    exists l, d, e. repeat split; try done.
    by rewrite !Forall_app.
  - intros (l & d & e & -> & Hl & Hd & He & Hall).
    rewrite !Forall_app in Hall. destruct Hall as (? & ? & ?).
    repeat apply matches_seq;
      try (by apply matches_plus_class);
      by apply matches_chr.
Qed.
End Regex.

(** ** The two statements *)

Section Statements.
Implicit Types (db : database) (email token : jsstring) (r : Subscriber).

Lemma confirm_by_token_lookup token db email :
  subscribers (confirm_by_token token db).1 !! email =
  (λ r, if decide (awaits token r) then confirm_row_of r else r)
    <$> subscribers db !! email.
Proof. simpl. apply lookup_fmap. Qed.

Lemma database_eq db1 db2 :
  subscribers db1 = subscribers db2 → id_seq db1 = id_seq db2 → db1 = db2.
Proof.
  destruct db1 as [m1 n1 H1], db2 as [m2 n2 H2]. simpl.
  intros -> ->. f_equal. apply proof_irrel.
Qed.

(** A key of the table is text. *)
Lemma key_is_text db email r :
  subscribers db !! email = Some r → pg_text email = email.
Proof.
  intros Hr.
  exact (map_Forall_lookup_1 _ _ _ _
           (bool_decide_unpack _ (keys_are_text db)) Hr).
Qed.

Lemma confirmed_not_awaiting token r : ¬ awaits token (confirm_row_of r).
Proof. intros [H _]. discriminate H. Qed.

(** Rows come back exactly when some row matches. *)
Lemma confirm_by_token_no_rows token db :
  (confirm_by_token token db).2 = [] ↔ none_awaiting db token.
Proof.
  simpl. split.
  - intros H email r Hr Haw.
    apply fmap_nil_inv, map_to_list_empty_iff in H.
    pose proof (f_equal (λ m : gmap jsstring Subscriber, m !! email) H)
      as H'.
    simpl in H'. rewrite lookup_empty in H'.
    apply map_lookup_filter_None in H'. clear H. rename H' into H.
    destruct H as [H | H]; [congruence | exact (H r Hr Haw)].
  - intros H.
    replace (filter (λ kr : jsstring * Subscriber, awaits token kr.2)
               (subscribers db)) with (∅ : gmap jsstring Subscriber).
    { by rewrite map_to_list_empty. }
    symmetry. apply map_empty. intros email.
    apply map_lookup_filter_None. right.
    intros r Hr. exact (H email r Hr).
Qed.

Lemma confirm_by_token_unchanged token db :
  none_awaiting db token → (confirm_by_token token db).1 = db.
Proof.
  intros H. apply database_eq; [| reflexivity].
  apply map_eq. intros email. rewrite confirm_by_token_lookup.
  destruct (subscribers db !! email) as [r |] eqn:Hr; [| reflexivity].
  simpl. destruct (decide (awaits token r)) as [Haw |]; [| reflexivity].
  destruct (H email r Hr Haw).
Qed.

(** The statement consumes the token: nothing matches it afterwards. *)
Lemma confirm_by_token_consumes token db :
  none_awaiting (confirm_by_token token db).1 token.
Proof.
  intros email r. rewrite confirm_by_token_lookup.
  destruct (subscribers db !! email) as [r0 |]; [| discriminate].
  simpl. intros [= <-].
  destruct (decide (awaits token r0)) as [| Hno]; [| exact Hno].
  apply confirmed_not_awaiting.
Qed.

Lemma only_awaiting_rows db token email r :
  only_awaiting db token email r →
  (confirm_by_token token db).2 = [mkConfirmRow (id r) email].
Proof.
  intros (Hr & Haw & Huniq). simpl.
  assert (filter (λ kr : jsstring * Subscriber, awaits token kr.2)
            (subscribers db) = {[email := r]}) as ->.
  { apply map_eq. intros i. destruct (decide (i = email)) as [-> | Hne].
    - rewrite lookup_singleton_eq. by apply map_lookup_filter_Some.
    - rewrite lookup_singleton_ne by congruence.
      apply map_lookup_filter_None. right. intros r' Hr' Haw'.
      apply Hne. by eapply Huniq. }
  by rewrite map_to_list_singleton.
Qed.

Lemma only_awaiting_store db token email r :
  only_awaiting db token email r →
  subscribers (confirm_by_token token db).1
  = <[email := confirm_row_of r]> (subscribers db).
Proof.
  intros (Hr & Haw & Huniq).
  apply map_eq. intros i. rewrite confirm_by_token_lookup. simpl.
  destruct (decide (i = email)) as [-> | Hne].
  - rewrite lookup_insert_eq, Hr. simpl. by rewrite decide_True.
  - rewrite lookup_insert_ne by congruence.
    destruct (subscribers db !! i) as [r' |] eqn:Hr'; [| reflexivity].
    simpl. destruct (decide (awaits token r')) as [Haw' |]; [| reflexivity].
    destruct Hne. by eapply Huniq.
Qed.
End Statements.

(** ** Confirm *)

Section Confirm.
Implicit Types (db : database) (email token : jsstring) (r : Subscriber).

Lemma falsy_nonempty token : token ≠ [] → falsy (Some token) = false.
Proof. by destruct token. Qed.

(** What [GET] does once the token is there and the statement resolves. *)
Lemma GET_resolved db token :
  token ≠ [] →
  GET None db (Some token) =
  let issued := [db_query (UPDATE_WHERE_TOKEN token)] in
  match (confirm_by_token token db).2 with
  | row :: _ =>
      mkConfirmOutcome (confirm_by_token token db).1
        (json (js "Your subscription has been successfully confirmed!") 200)
        issued
        [console_log [js "Subscription successfully confirmed for: "
                      ++ cr_email row]]
  | [] =>
      mkConfirmOutcome (confirm_by_token token db).1
        (json (js "Invalid or expired confirmation link, or subscription already confirmed.")
           404)
        issued
        [console_warn
           [js "Invalid, expired, or already used confirmation token: "
            ++ token]]
  end.
Proof.
  intros Hne. unfold GET. rewrite (falsy_nonempty _ Hne).
  by destruct token.
Qed.

(** No token, or an empty one: 400, whatever the store is or does. *)
Lemma GET_missing_token (query : option thrown) db
    (param : option jsstring) :
  falsy param = true →
  GET query db param =
  mkConfirmOutcome db
    (json (js "Confirmation token is missing from the link.") 400) []
    [console_warn [js "Confirmation attempt with missing token"]].
Proof. intros H. unfold GET. by rewrite H. Qed.

Lemma GET_no_match db token :
  token ≠ [] → none_awaiting db token →
  GET None db (Some token) =
  mkConfirmOutcome db
    (json (js "Invalid or expired confirmation link, or subscription already confirmed.")
       404)
    [db_query (UPDATE_WHERE_TOKEN token)]
    [console_warn
       [js "Invalid, expired, or already used confirmation token: "
        ++ token]].
Proof.
  intros Hne Hnone. rewrite (GET_resolved _ _ Hne). cbv zeta.
  rewrite (proj2 (confirm_by_token_no_rows token db) Hnone).
  by rewrite (confirm_by_token_unchanged _ _ Hnone).
Qed.

Lemma GET_match db token :
  token ≠ [] → ¬ none_awaiting db token →
  c_response (GET None db (Some token)) =
    json (js "Your subscription has been successfully confirmed!") 200
  ∧ c_store (GET None db (Some token)) = (confirm_by_token token db).1.
Proof.
  intros Hne Hsome. rewrite (GET_resolved _ _ Hne). cbv zeta.
  destruct (confirm_by_token token db).2 as [| row rows] eqn:Hrows.
  - destruct Hsome. by apply confirm_by_token_no_rows.
  - done.
Qed.
End Confirm.


Lemma one_pending_only token :
  only_awaiting (one_pending token) token alice (pending_row token).
Proof.
  split; [apply lookup_singleton_eq |]. split; [done |].
  intros email' r' H _. simpl in H.
  by apply lookup_singleton_Some in H as [-> _].
Qed.

Lemma singleton_only_awaiting (db : database) (token email : jsstring)
    (r : Subscriber) :
  subscribers db = {[ email := r ]} → awaits token r →
  only_awaiting db token email r.
Proof.
  intros Hdb Haw. unfold only_awaiting. rewrite Hdb.
  split; [apply lookup_singleton_eq |]. split; [done |].
  intros email' r' H _. by apply lookup_singleton_Some in H as [-> _].
Qed.

(** C1, as stated, fails on "with the confirmed address": after one
    Subscribe of [alice] and after one Subscribe of [bob], the one pending
    row holds the token, and the two Confirm calls are answered with the
    same response, which is the fixed message: the address that was
    confirmed is not in what the handler returns. *)
Lemma confirm_response_without_address :
  (∃ r, only_awaiting subscribed_once (js "T1") alice r)
  ∧ (∃ r, only_awaiting bob_subscribed_once (js "T1") bob r)
  ∧ alice ≠ bob
  ∧ c_response (GET None subscribed_once (Some (js "T1")))
    = c_response (GET None bob_subscribed_once (Some (js "T1")))
  ∧ c_response (GET None subscribed_once (Some (js "T1")))
    = json (js "Your subscription has been successfully confirmed!") 200.
Proof.
  split; [| split; [| split; [| split]]].
  - exists {| id := 1; status := pending;
              confirmation_token := Some (js "T1");
              created_at := 7; updated_at := 7 |}.
    apply singleton_only_awaiting; [vm_compute; reflexivity | done].
  - exists {| id := 1; status := pending;
              confirmation_token := Some (js "T1");
              created_at := 7; updated_at := 7 |}.
    apply singleton_only_awaiting; [vm_compute; reflexivity | done].
  - vm_compute. discriminate.
  - vm_compute. reflexivity.
  - vm_compute. reflexivity.
Qed.

(** C1 (amended): for a present token held by exactly one pending row, when
    the statement resolves, Confirm issues that one conditional update,
    which sets the row to confirmed with a null token and leaves the others;
    it answers 200 with the fixed message, and the confirmed address, which
    the statement returns, goes to the console, not into the response. *)
Theorem confirm_unique_pending (db : database) (token email : jsstring)
    (r : Subscriber) :
  token ≠ [] →
  only_awaiting db token email r →
  let o := GET None db (Some token) in
  subscribers (c_store o)
  = <[email := {| id := id r; status := confirmed;
                  confirmation_token := None;
                  created_at := created_at r;
                  updated_at := updated_at r |}]> (subscribers db)
  ∧ id_seq (c_store o) = id_seq db
  ∧ c_response o
    = json (js "Your subscription has been successfully confirmed!") 200
  ∧ c_calls o = [db_query (UPDATE_WHERE_TOKEN token)]
  ∧ c_console o
    = [console_log [js "Subscription successfully confirmed for: "
                    ++ email]].
Proof.
  intros Hne Honly o. subst o. rewrite (GET_resolved _ _ Hne). cbv zeta.
  rewrite (only_awaiting_rows _ _ _ _ Honly).
  split; [exact (only_awaiting_store _ _ _ _ Honly) | done].
Qed.

Lemma confirm_unique_pending_witness :
  js "T1" ≠ []
  ∧ only_awaiting (one_pending (js "T1")) (js "T1") alice
      (pending_row (js "T1"))
  ∧ c_response (GET None (one_pending (js "T1")) (Some (js "T1"))) =
      json (js "Your subscription has been successfully confirmed!") 200
  ∧ subscribers (c_store (GET None (one_pending (js "T1")) (Some (js "T1"))))
      !! alice = Some (confirm_row_of (pending_row (js "T1"))).
Proof.
  assert (js "T1" ≠ []) as Hne by done.
  split; [exact Hne |]. split; [apply one_pending_only |].
  destruct (confirm_unique_pending (one_pending (js "T1")) (js "T1") alice
              (pending_row (js "T1")) Hne (one_pending_only (js "T1")))
    as (Hstore & _ & Hresponse & _).
  split; [exact Hresponse |]. rewrite Hstore. apply lookup_insert_eq.
Defined.

(** C4: a Confirm call with a present token that matches no row (never
    issued, already consumed, or its row is not pending) answers 404 once
    its statement resolves, and leaves the store as it was; confirming a
    token that a pending row holds answers 200 the first time and 404 the
    second time, the second call changing nothing. *)
Theorem confirm_not_found (db : database) (token : jsstring) :
  token ≠ [] →
  (none_awaiting db token →
   GET None db (Some token) =
   {| c_store := db;
      c_response :=
        json (js "Invalid or expired confirmation link, or subscription already confirmed.")
          404;
      c_calls := [db_query (UPDATE_WHERE_TOKEN token)];
      c_console :=
        [console_warn
           [js "Invalid, expired, or already used confirmation token: "
            ++ token]] |})
  ∧ (∀ email r,
       subscribers db !! email = Some r → awaits token r →
       let first := GET None db (Some token) in
       let second := GET None (c_store first) (Some token) in
       status_code (c_response first) = 200
       ∧ status_code (c_response second) = 404
       ∧ c_store second = c_store first).
Proof.
  intros Hne. split; [apply GET_no_match, Hne |].
  intros email r Hr Haw first second.
  assert (¬ none_awaiting db token) as Hsome.
  { intros Hnone. exact (Hnone email r Hr Haw). }
  destruct (GET_match db token Hne Hsome) as [Hresp Hstore].
  subst first second. rewrite Hresp, Hstore.
  rewrite (GET_no_match _ _ Hne (confirm_by_token_consumes token db)).
  done.
Qed.

Lemma confirm_not_found_witness :
  js "T1" ≠ []
  ∧ none_awaiting empty_database (js "T1")
  ∧ status_code (c_response (GET None empty_database (Some (js "T1")))) = 404
  ∧ c_store (GET None empty_database (Some (js "T1"))) = empty_database
  ∧ status_code
      (c_response (GET None (one_pending (js "T1")) (Some (js "T1")))) = 200
  ∧ status_code
      (c_response
         (GET None
            (c_store (GET None (one_pending (js "T1")) (Some (js "T1"))))
            (Some (js "T1")))) = 404.
Proof.
  assert (js "T1" ≠ []) as Hne by done.
  assert (none_awaiting empty_database (js "T1")) as Hnone.
  { intros email r H. simpl in H. by rewrite lookup_empty in H. }
  split; [exact Hne |]. split; [exact Hnone |].
  destruct (confirm_not_found empty_database (js "T1") Hne) as [H404 _].
  rewrite (H404 Hnone). split; [reflexivity |]. split; [reflexivity |].
  destruct (confirm_not_found (one_pending (js "T1")) (js "T1") Hne)
    as [_ Htwice].
  destruct (Htwice alice (pending_row (js "T1"))
              (proj1 (one_pending_only (js "T1")))
              (proj1 (proj2 (one_pending_only (js "T1")))))
    as (H1 & H2 & _).
  split; [exact H1 | exact H2].
Defined.

(** ** Subscribe *)

Section Upsert.
Implicit Types (db : database) (email token : jsstring) (now : nat).

Lemma status_after_upsert_case (before : option Subscriber) :
  status_after_upsert before =
  match before with None => pending | Some old => case_status (status old) end.
Proof. destruct before as [[? [] ? ? ?] |]; reflexivity. Qed.

Lemma upsert_subscriber_row now email token db :
  ∃ r, subscribers (upsert_subscriber now email token db).1 !! pg_text email
       = Some r
    ∧ (upsert_subscriber now email token db).2
      = [mkUpsertRow (id r) (status r) (pg_text email)]
    ∧ confirmation_token r = Some token
    ∧ status r = status_after_upsert (subscribers db !! pg_text email).
Proof.
  rewrite status_after_upsert_case. unfold upsert_subscriber.
  destruct (subscribers db !! pg_text email) as [old |]; simpl;
    eexists; (split; [apply lookup_insert_eq | done]).
Qed.

Lemma upsert_subscriber_other now email token db other :
  other ≠ pg_text email →
  subscribers (upsert_subscriber now email token db).1 !! other
  = subscribers db !! other.
Proof.
  intros Hne. unfold upsert_subscriber.
  destruct (subscribers db !! pg_text email); simpl;
    by rewrite lookup_insert_ne by congruence.
Qed.

Lemma upsert_subscriber_0_row now email token db :
  ∃ r, subscribers (upsert_subscriber_0 now email token db).1
         !! pg_text email = Some r
    ∧ (upsert_subscriber_0 now email token db).2
      = [mkUpsertRow (id r) (status r) (pg_text email)]
    ∧ confirmation_token r = Some token
    ∧ status r = status_after_upsert (subscribers db !! pg_text email).
Proof.
  rewrite status_after_upsert_case. unfold upsert_subscriber_0.
  destruct (subscribers db !! pg_text email) as [old |]; simpl;
    eexists; (split; [apply lookup_insert_eq | done]).
Qed.

Lemma upsert_subscriber_0_other now email token db other :
  other ≠ pg_text email →
  subscribers (upsert_subscriber_0 now email token db).1 !! other
  = subscribers db !! other.
Proof.
  intros Hne. unfold upsert_subscriber_0.
  destruct (subscribers db !! pg_text email); simpl;
    by rewrite lookup_insert_ne by congruence.
Qed.

Lemma upsert_subscriber_effect now email token db :
  upsert_effect db (upsert_subscriber now email token db).1
    (pg_text email) token.
Proof.
  split; [intros other; apply upsert_subscriber_other |].
  destruct (upsert_subscriber_row now email token db) as (r & ? & _ & ? & ?).
  by exists r.
Qed.

Lemma upsert_subscriber_0_effect now email token db :
  upsert_effect db (upsert_subscriber_0 now email token db).1
    (pg_text email) token.
Proof.
  split; [intros other; apply upsert_subscriber_0_other |].
  destruct (upsert_subscriber_0_row now email token db)
    as (r & ? & _ & ? & ?).
  by exists r.
Qed.
End Upsert.

Section Subscribe.
Implicit Types (env : environment) (db : database) (email : jsstring)
  (body : request_body).

Lemma accepted_passes email :
  accepted email → passes (json_value (Some email)).
Proof. intros [Hpresent Hformat]. by split. Qed.

(** A body that passes the checks is a parsed value. *)
Lemma passes_parsed body :
  passes body → body ≠ unparseable ∧ body ≠ json_null.
Proof. intros (_ & H & _). by destruct body. Qed.

(** Every branch after the upsert keeps the store the upsert left. *)
Lemma after_upsert_store env db' before token rows :
  store (after_upsert env db' before token rows) = db'.
Proof.
  unfold after_upsert. destruct rows as [| row rows]; [done |].
  destruct (decide (ur_status row = confirmed)); [done |].
  by destruct (sendConfirmationEmail env (ur_email row) token).
Qed.

(** The current handler, past validation and with both statements
    resolving. *)
Lemma POST_passed env db body :
  passes body → select_1 env = None → data_query env = None →
  POST env db body =
  after_upsert env
    (upsert_subscriber (NOW env) (email_parameter body) (uuidv4 env) db).1
    [db_query SELECT_1;
     db_query (INSERT_ON_CONFLICT (email_parameter body) (uuidv4 env))]
    (uuidv4 env)
    (upsert_subscriber (NOW env) (email_parameter body) (uuidv4 env) db).2.
Proof.
  intros (Hconverts & Hpresent & Hformat) Hping Hquery.
  destruct body as [| | email | v]; try done; unfold POST;
    rewrite Hconverts, Hpresent, Hformat; simpl negb; cbv iota zeta;
    rewrite Hping, Hquery;
    by destruct (upsert_subscriber _ _ _ _).
Qed.

Lemma POST_accepted env db email :
  accepted email → select_1 env = None → data_query env = None →
  POST env db (json_value (Some email)) =
  after_upsert env
    (upsert_subscriber (NOW env) email (uuidv4 env) db).1
    [db_query SELECT_1; db_query (INSERT_ON_CONFLICT email (uuidv4 env))]
    (uuidv4 env)
    (upsert_subscriber (NOW env) email (uuidv4 env) db).2.
Proof.
  intros Hvalid. exact (POST_passed env db _ (accepted_passes _ Hvalid)).
Qed.

Lemma POST_upsert_effect env db body :
  passes body → select_1 env = None → data_query env = None →
  upsert_effect db (store (POST env db body))
    (stored_address body) (uuidv4 env).
Proof.
  intros Hvalid Hping Hquery.
  rewrite (POST_passed _ _ _ Hvalid Hping Hquery).
  rewrite after_upsert_store. apply upsert_subscriber_effect.
Qed.

Lemma Part000_POST_store env db body :
  passes body → data_query env = None →
  store (Part000.POST env db body) =
  (upsert_subscriber_0 (NOW env) (email_parameter body) (uuidv4 env) db).1.
Proof.
  intros (Hconverts & Hpresent & Hformat) Hquery.
  destruct body as [| | email | v]; try done; unfold Part000.POST;
    rewrite Hconverts, Hpresent, Hformat; simpl negb; cbv iota zeta;
    rewrite Hquery;
    (destruct (upsert_subscriber_0 _ _ _ _) as [db' [| row rows]];
     [done |]); simpl;
    (destruct (decide (ur_status row = confirmed)); [done |]);
    by destruct (sendConfirmationEmail env (ur_email row) (uuidv4 env)).
Qed.

Lemma Part001_POST_store env db body :
  passes body → data_query env = None →
  store (Part001.POST env db body) =
  (upsert_subscriber_0 (NOW env) (email_parameter body) (uuidv4 env) db).1.
Proof.
  intros (Hconverts & Hpresent & Hformat) Hquery.
  destruct body as [| | email | v]; try done; unfold Part001.POST;
    rewrite Hconverts, Hpresent, Hformat; simpl negb; cbv iota zeta;
    rewrite Hquery;
    (destruct (upsert_subscriber_0 _ _ _ _) as [db' [| row rows]];
     [done |]); simpl;
    (destruct (decide (ur_status row = confirmed)); [done |]);
    by destruct (sendConfirmationEmail env (ur_email row) (uuidv4 env)).
Qed.
End Subscribe.

Lemma accepted_alice : accepted alice.
Proof. split; vm_compute; reflexivity. Qed.

Lemma passes_alice : passes (json_value (Some alice)).
Proof. exact (accepted_passes _ accepted_alice). Qed.



(** C3, as stated, fails when the notifier fails: the upsert completes and
    leaves the row pending, the notifier is called once with the stored
    token, and the handler answers 500. *)
Lemma subscribe_notifier_failure_500 :
  accepted alice
  ∧ select_1 (smtp_down (js "T1")) = None
  ∧ data_query (smtp_down (js "T1")) = None
  ∧ subscribers
      (store (POST (smtp_down (js "T1")) empty_database
                (json_value (Some alice)))) !! alice
    = Some {| id := 1; status := pending;
              confirmation_token := Some (js "T1");
              created_at := 7; updated_at := 7 |}
  ∧ notifications
      (calls (POST (smtp_down (js "T1")) empty_database
                (json_value (Some alice))))
    = [notify alice (js "T1")]
  ∧ status_code
      (response (POST (smtp_down (js "T1")) empty_database
                   (json_value (Some alice)))) = 500.
Proof. split; [exact accepted_alice |]. by vm_compute. Qed.

(** C3 (amended): for every Subscribe call that completes its upsert, the
    row of the address, as the store holds it, carries the fresh token; if
    its status is confirmed, the handler answers 200 "already subscribed"
    and calls no notifier; if it is pending, the handler calls the notifier
    exactly once, with the stored address and the stored token, and answers
    200 "check your email" when that call returns, 500 when it throws. *)
Theorem subscribe_branches (env : environment) (db : database)
    (body : request_body) :
  passes body → select_1 env = None → data_query env = None →
  let o := POST env db body in
  let email := stored_address body in
  ∃ r, subscribers (store o) !! email = Some r
    ∧ confirmation_token r = Some (uuidv4 env)
    ∧ match status r with
      | confirmed =>
          response o = json (js "You are already subscribed and confirmed!")
                         200
          ∧ notifications (calls o) = []
      | pending =>
          notifications (calls o) = [notify email (uuidv4 env)]
          ∧ response o =
            match sendConfirmationEmail env email (uuidv4 env) with
            | None =>
                json (js "Please check your email to confirm your subscription!")
                  200
            | Some _ =>
                json (js "Failed to send confirmation email. Please try again or contact support.")
                  500
            end
      | unsubscribed => False
      end.
Proof.
  intros Hvalid Hping Hquery o email. subst o email. unfold stored_address.
  rewrite (POST_passed _ _ _ Hvalid Hping Hquery).
  rewrite after_upsert_store.
  destruct (upsert_subscriber_row (NOW env) (email_parameter body)
              (uuidv4 env) db) as (r & Hr & -> & Htoken & Hstatus).
  exists r. split; [exact Hr |]. split; [exact Htoken |].
  unfold after_upsert. simpl ur_status. simpl ur_email.
  destruct (status r) eqn:Hs.
  - rewrite decide_False by done.
    by destruct (sendConfirmationEmail env _ (uuidv4 env)).
  - by rewrite decide_True by done.
  - rewrite status_after_upsert_case in Hstatus.
    by destruct (subscribers db !! _) as [[? [] ? ? ?] |].
Qed.

Lemma subscribe_branches_witness :
  passes (json_value (Some alice))
  ∧ select_1 (calm (js "T1")) = None ∧ data_query (calm (js "T1")) = None
  ∧ ∃ r, subscribers
           (store (POST (calm (js "T1")) empty_database
                     (json_value (Some alice)))) !! alice = Some r
      ∧ confirmation_token r = Some (js "T1").
Proof.
  split; [exact passes_alice |]. split; [reflexivity |].
  split; [reflexivity |].
  destruct (subscribe_branches (calm (js "T1")) empty_database
              (json_value (Some alice)) passes_alice eq_refl eq_refl)
    as (r & Hr & Htoken & _).
  exists r. split; [exact Hr | exact Htoken].
Defined.




(** The scenario of the specification: subscribe, confirm, confirm again. *)
Example scenario :
  let T := js "0b5c6f0e-7a3d-4c1e-9f2b-6d5a4c3b2a10" in
  let first := POST (calm T) empty_database (json_value (Some alice)) in
  let second := GET None (store first) (Some T) in
  let third := GET None (c_store second) (Some T) in
  subscribers (store first) !! alice
  = Some {| id := 1; status := pending; confirmation_token := Some T;
            created_at := 7; updated_at := 7 |}
  ∧ notifications (calls first) = [notify alice T]
  ∧ response first
    = json (js "Please check your email to confirm your subscription!") 200
  ∧ subscribers (c_store second) !! alice
    = Some {| id := 1; status := confirmed; confirmation_token := None;
              created_at := 7; updated_at := 7 |}
  ∧ status_code (c_response second) = 200
  ∧ status_code (c_response third) = 404
  ∧ c_store third = c_store second.
Proof.
  cbv zeta. repeat apply conj; try (vm_compute; reflexivity).
  apply database_eq; vm_compute; reflexivity.
Qed.

(** An email with a lone surrogate passes validation and is stored, and
    notified, as the text the store holds for it. *)
Example lone_surrogate :
  let email := [0xD800; 0x40; 0x62; 0x2E; 0x63]%N in
  let stored := [0xFFFD; 0x40; 0x62; 0x2E; 0x63]%N in
  let o := POST (calm (js "T1")) empty_database (json_value (Some email)) in
  accepted email
  ∧ subscribers (store o) !! email = None
  ∧ subscribers (store o) !! stored
    = Some {| id := 1; status := pending;
              confirmation_token := Some (js "T1");
              created_at := 7; updated_at := 7 |}
  ∧ notifications (calls o) = [notify stored (js "T1")].
Proof. cbv zeta. repeat apply conj; vm_compute; reflexivity. Qed.

(** When the row of that text is confirmed, a request with the lone
    surrogate is answered as already subscribed, and nothing is sent. *)
Example lone_surrogate_confirmed :
  let email := [0xD800; 0x40; 0x62; 0x2E; 0x63]%N in
  let stored := [0xFFFD; 0x40; 0x62; 0x2E; 0x63]%N in
  let db :=
    serve_all [Subscribe (calm (js "T1")) (json_value (Some stored));
               Confirm None (Some (js "T1"))] empty_database in
  let o := POST (calm (js "T2")) db (json_value (Some email)) in
  subscribers db !! stored
  = Some {| id := 1; status := confirmed; confirmation_token := None;
            created_at := 7; updated_at := 7 |}
  ∧ response o = json (js "You are already subscribed and confirmed!") 200
  ∧ notifications (calls o) = []
  ∧ subscribers (store o) !! email = None
  ∧ subscribers (store o) !! stored
    = Some {| id := 1; status := confirmed;
              confirmation_token := Some (js "T2");
              created_at := 7; updated_at := 7 |}.
Proof. cbv zeta. repeat apply conj; vm_compute; reflexivity. Qed.

(** An email that is an array of one string passes validation through its
    string conversion, and is stored and notified as the array literal the
    driver makes of it. *)
Example array_email :
  let email :=
    object (Some alice)
      (js "{" ++ [0x22%N] ++ alice ++ [0x22%N] ++ js "}") in
  let o := POST (calm (js "T1")) empty_database (json_other email) in
  passes (json_other email)
  ∧ subscribers (store o) !! alice = None
  ∧ (∃ r, subscribers (store o) !! prepareValue email = Some r)
  ∧ notifications (calls o) = [notify (prepareValue email) (js "T1")].
Proof.
  split; [repeat split; vm_compute; reflexivity |].
  split; [vm_compute; reflexivity |].
  split; [eexists; vm_compute; reflexivity | vm_compute; reflexivity].
Qed.

(** ** Validation *)

(** C7: a Subscribe request whose email is missing or empty, or does not
    match the pattern ("foo", "foo@" and "@bar.com" do not), is answered 400
    with the store untouched and no call made; a Confirm request whose token
    is missing or empty is answered 400 with no statement issued, whatever
    the store would have done. *)
Theorem validation_errors (env : environment) (query : option thrown)
    (db : database) :
  (∀ email, email = None ∨ email = Some [] →
     POST env db (json_value email) =
     mkOutcome db (json (js "Email address is required.") 400) [])
  ∧ (∀ email, test emailRegex email = false →
       status_code (response (POST env db (json_value (Some email)))) = 400
       ∧ store (POST env db (json_value (Some email))) = db
       ∧ calls (POST env db (json_value (Some email))) = [])
  ∧ (∀ email, email ∈ [js "foo"; js "foo@"; js "@bar.com"] →
       test emailRegex email = false)
  ∧ (∀ token, token = None ∨ token = Some [] →
       status_code (c_response (GET query db token)) = 400
       ∧ c_store (GET query db token) = db
       ∧ c_calls (GET query db token) = []).
Proof.
  split; [| split; [| split]].
  - by intros email [-> | ->].
  - intros email Hformat. unfold POST.
    destruct (not_email (json_value (Some email))); [done |].
    change (email_string (json_value (Some email))) with email.
    by rewrite Hformat.
  - intros email Hin. rewrite !elem_of_cons, elem_of_nil in Hin.
    by destruct Hin as [-> | [-> | [-> | []]]]; vm_compute.
  - by intros token [-> | ->].
Qed.

Lemma validation_errors_witness :
  test emailRegex (js "foo@") = false
  ∧ status_code
      (response (POST (calm (js "T1")) empty_database
                   (json_value (Some (js "foo@"))))) = 400
  ∧ status_code (c_response (GET None (one_pending (js "T1")) (Some [])))
    = 400
  ∧ c_store (GET None (one_pending (js "T1")) (Some []))
    = one_pending (js "T1").
Proof.
  destruct (validation_errors (calm (js "T1")) None empty_database)
    as (_ & Hformat & Hsamples & _).
  assert (test emailRegex (js "foo@") = false) as Hfoo.
  { apply Hsamples. apply list_elem_of_In. right. left. reflexivity. }
  split; [exact Hfoo |].
  split; [exact (proj1 (Hformat (js "foo@") Hfoo)) |].
  destruct (validation_errors (calm (js "T1")) None (one_pending (js "T1")))
    as (_ & _ & _ & Htoken).
  destruct (Htoken (Some []) (or_intror eq_refl)) as (H400 & Hstore & _).
  split; [exact H400 | exact Hstore].
Defined.

(** C10: a Subscribe request whose body does not parse as JSON is answered
    400 with "Invalid request format."; the store is untouched, and neither
    a statement nor a notifier call is made. *)
Theorem unparseable_body_rejected (env : environment) (db : database) :
  response (POST env db unparseable) = json (js "Invalid request format.") 400
  ∧ store (POST env db unparseable) = db
  ∧ calls (POST env db unparseable) = []
  ∧ notifications (calls (POST env db unparseable)) = [].
Proof.
  unfold POST. simpl.
  repeat split; reflexivity.
Qed.

(** ** Failures of the store and of the notifier *)

(** Every revision of the notifier throws when the transport rejects the
    mail, and then only. *)
Lemma notifier_throws_with_transport (cfg : Email.config)
    (site : option jsstring) (to token : jsstring) :
  (∀ sendMail, (∀ m, sendMail m ≠ None) →
     Email.sendConfirmationEmail cfg sendMail to token ≠ None)
  ∧ (∀ sendMail,
       Email0.sendConfirmationEmail site sendMail to token ≠ None ↔
       sendMail (Email0.mkMail to
                   ((if falsy site then js "http://localhost:5173"
                     else default [] site)
                    ++ js "/confirm-subscription?token=" ++ token)) ≠ None).
Proof.
  split.
  - intros sendMail Hdown. unfold Email.sendConfirmationEmail.
    destruct (_ || _); [done |]. destruct (falsy _); [done |].
    match goal with |- context [sendMail ?m] =>
      pose proof (Hdown m); by destruct (sendMail m) end.
  - intros sendMail. unfold Email0.sendConfirmationEmail.
    by destruct (sendMail _).
Qed.

(** Unfold a subscribe handler past its two validation checks. *)
Ltac past_validation H :=
  let Hconverts := fresh "Hconverts" in
  let Hpresent := fresh "Hpresent" in
  let Hformat := fresh "Hformat" in
  pose proof H as (Hconverts & Hpresent & Hformat);
  match goal with
  | body : request_body |- _ =>
      destruct body as [| | ? | ?]; [done | done | |]
  end;
  rewrite Hconverts, Hpresent, Hformat; simpl negb; cbv iota zeta.

Lemma rejects_cases (x : option thrown) : x ≠ None → ∃ e, x = Some e.
Proof. destruct x as [e |]; [by exists e | done]. Qed.

(** The earlier revisions after a resolved upsert whose row is pending. *)
Lemma upsert_subscriber_0_pending (env : environment) (db : database)
    (email : jsstring) :
  status_after_upsert (subscribers db !! pg_text email) = pending →
  ∃ db' id, upsert_subscriber_0 (NOW env) email (uuidv4 env) db
            = (db', [mkUpsertRow id pending (pg_text email)]).
Proof.
  intros Hpending.
  destruct (upsert_subscriber_0_row (NOW env) email (uuidv4 env) db)
    as (r & _ & Hrows & _ & Hstatus).
  rewrite Hpending in Hstatus. rewrite Hstatus in Hrows.
  destruct (upsert_subscriber_0 (NOW env) email (uuidv4 env) db)
    as [db' rows].
  simpl in Hrows. subst rows. by exists db', (id r).
Qed.

(** The current handler when the connection test or the upsert rejects. *)
Lemma POST_store_fails (env : environment) (db : database)
    (body : request_body) :
  passes body →
  (select_1 env ≠ None →
   POST env db body =
   mkOutcome db
     (json (js "Database service unavailable. Please try again later.") 503)
     [db_query SELECT_1])
  ∧ (select_1 env = None → data_query env ≠ None →
     POST env db body =
     mkOutcome db
       (json (js "Database error occurred. Please try again later.") 500)
       [db_query SELECT_1;
        db_query (INSERT_ON_CONFLICT (email_parameter body) (uuidv4 env))]).
Proof.
  intros Hvalid. split.
  - intros [e He]%rejects_cases. unfold POST.
    past_validation Hvalid; by rewrite He.
  - intros Hping [e He]%rejects_cases. unfold POST.
    past_validation Hvalid; by rewrite Hping, He.
Qed.

(** The earlier revisions when the upsert rejects. *)
Lemma Part_POST_store_fails (env : environment) (db : database)
    (body : request_body) :
  passes body → data_query env ≠ None →
  Part001.POST env db body =
  mkOutcome db
    (json (js "Database error occurred. Please try again later.") 500)
    [db_query (INSERT_ON_CONFLICT (email_parameter body) (uuidv4 env))]
  ∧ Part000.POST env db body =
    mkOutcome db
      (json (js "Failed to subscribe. Please try again later.") 500)
      [db_query (INSERT_ON_CONFLICT (email_parameter body) (uuidv4 env))].
Proof.
  intros Hvalid [e He]%rejects_cases. split.
  - unfold Part001.POST. past_validation Hvalid; by rewrite He.
  - unfold Part000.POST. past_validation Hvalid; by rewrite He.
Qed.

(** The answers of the three revisions when the notifier, called for a
    pending row, throws. *)
Lemma POST_notifier_fails (env : environment) (db : database)
    (body : request_body) :
  passes body → data_query env = None →
  status_after_upsert (subscribers db !! stored_address body) = pending →
  sendConfirmationEmail env (stored_address body) (uuidv4 env) ≠ None →
  (select_1 env = None →
   response (POST env db body) =
   json (js "Failed to send confirmation email. Please try again or contact support.")
     500)
  ∧ response (Part001.POST env db body) =
    json (js "Subscription saved! Please check your email or contact support if you don't receive confirmation.")
      200
  ∧ response (Part000.POST env db body) =
    json (js "Failed to subscribe. Please try again later.") 500.
Proof.
  unfold stored_address.
  intros Hvalid Hquery Hpending [e He]%rejects_cases. split; [| split].
  - intros Hping. rewrite (POST_passed _ _ _ Hvalid Hping Hquery).
    destruct (upsert_subscriber_row (NOW env) (email_parameter body)
                (uuidv4 env) db) as (r & _ & -> & _ & Hstatus).
    unfold after_upsert. simpl ur_status. simpl ur_email.
    rewrite Hstatus, Hpending, decide_False by done. by rewrite He.
  - destruct (upsert_subscriber_0_pending env db _ Hpending)
      as (db' & i & Hrows).
    unfold Part001.POST. past_validation Hvalid; rewrite Hquery;
      simpl email_parameter in *; rewrite Hrows; simpl; by rewrite He.
  - destruct (upsert_subscriber_0_pending env db _ Hpending)
      as (db' & i & Hrows).
    unfold Part000.POST. past_validation Hvalid; rewrite Hquery;
      simpl email_parameter in *; rewrite Hrows; simpl; by rewrite He.
Qed.

(** C8, as stated, fails: on the same request with the SMTP server down,
    the current handler answers 500 and the revision part_001 answers 200,
    so the policy is not uniform; and the revision part_000 gives a notifier
    failure the very response it gives a store failure. *)
Lemma notifier_policy_not_uniform :
  status_code
    (response (POST (smtp_down (js "T1")) empty_database
                 (json_value (Some alice)))) = 500
  ∧ status_code
      (response (Part001.POST (smtp_down (js "T1")) empty_database
                   (json_value (Some alice)))) = 200
  ∧ response (Part000.POST (smtp_down (js "T1")) empty_database
                (json_value (Some alice)))
    = response (Part000.POST (store_down (js "T1")) empty_database
                  (json_value (Some alice)))
  ∧ subscribers
      (store (Part000.POST (smtp_down (js "T1")) empty_database
                (json_value (Some alice)))) !! alice
    = Some {| id := 1; status := pending;
              confirmation_token := Some (js "T1");
              created_at := 7; updated_at := 7 |}.
Proof. by vm_compute. Qed.

(** C8 (amended): in every revision of Subscribe a store failure aborts the
    operation with a generic 5xx answer, the store untouched and no notifier
    call. A notifier failure after the write keeps the written row, which
    is the row of the address as the store holds it; the current handler
    catches it apart and answers 500 "Failed to send confirmation
    email...", part_001 catches it apart and answers 200 "Subscription
    saved!...", and part_000 catches it together with store failures and
    answers the same 500 "Failed to subscribe..." for both. *)
Theorem failure_policies (env : environment) (db : database)
    (body : request_body) :
  passes body →
  let parameter := email_parameter body in
  let email := stored_address body in
  let token := uuidv4 env in
  (* the store fails *)
  (select_1 env ≠ None →
   POST env db body =
   mkOutcome db
     (json (js "Database service unavailable. Please try again later.") 503)
     [db_query SELECT_1])
  ∧ (select_1 env = None → data_query env ≠ None →
     POST env db body =
     mkOutcome db
       (json (js "Database error occurred. Please try again later.") 500)
       [db_query SELECT_1; db_query (INSERT_ON_CONFLICT parameter token)])
  ∧ (data_query env ≠ None →
     Part001.POST env db body =
     mkOutcome db
       (json (js "Database error occurred. Please try again later.") 500)
       [db_query (INSERT_ON_CONFLICT parameter token)]
     ∧ Part000.POST env db body =
       mkOutcome db
         (json (js "Failed to subscribe. Please try again later.") 500)
         [db_query (INSERT_ON_CONFLICT parameter token)])
  (* the store succeeds, the notifier is called and fails *)
  ∧ (data_query env = None →
     status_after_upsert (subscribers db !! email) = pending →
     sendConfirmationEmail env email token ≠ None →
     (select_1 env = None →
      response (POST env db body) =
        json (js "Failed to send confirmation email. Please try again or contact support.")
          500
      ∧ upsert_effect db (store (POST env db body)) email token)
     ∧ (response (Part001.POST env db body) =
          json (js "Subscription saved! Please check your email or contact support if you don't receive confirmation.")
            200
        ∧ upsert_effect db (store (Part001.POST env db body)) email token)
     ∧ (response (Part000.POST env db body) =
          json (js "Failed to subscribe. Please try again later.") 500
        ∧ upsert_effect db (store (Part000.POST env db body)) email token)).
Proof.
  intros Hvalid parameter email token. subst parameter email token.
  destruct (POST_store_fails env db body Hvalid) as [Hping_fails Hquery_fails].
  split; [exact Hping_fails |]. split; [exact Hquery_fails |].
  split; [exact (Part_POST_store_fails env db body Hvalid) |].
  intros Hquery Hpending Hthrows.
  destruct (POST_notifier_fails env db body Hvalid Hquery Hpending Hthrows)
    as (Hcurrent & H001 & H000).
  split; [| split].
  - intros Hping. split; [exact (Hcurrent Hping) |].
    by apply POST_upsert_effect.
  - split; [exact H001 |].
    rewrite (Part001_POST_store _ _ _ Hvalid Hquery).
    apply upsert_subscriber_0_effect.
  - split; [exact H000 |].
    rewrite (Part000_POST_store _ _ _ Hvalid Hquery).
    apply upsert_subscriber_0_effect.
Qed.

Lemma failure_policies_witness :
  passes (json_value (Some alice))
  ∧ data_query (smtp_down (js "T1")) = None
  ∧ status_after_upsert (subscribers empty_database !! alice) = pending
  ∧ sendConfirmationEmail (smtp_down (js "T1")) alice (js "T1") ≠ None
  ∧ response (POST (smtp_down (js "T1")) empty_database
                (json_value (Some alice)))
    = json (js "Failed to send confirmation email. Please try again or contact support.")
        500
  ∧ response (Part001.POST (smtp_down (js "T1")) empty_database
                (json_value (Some alice)))
    = json (js "Subscription saved! Please check your email or contact support if you don't receive confirmation.")
        200.
Proof.
  assert (sendConfirmationEmail (smtp_down (js "T1")) alice (js "T1") ≠ None)
    as Hfails by (vm_compute; discriminate).
  split; [exact passes_alice |]. split; [reflexivity |].
  split; [reflexivity |]. split; [exact Hfails |].
  destruct (failure_policies (smtp_down (js "T1")) empty_database
              (json_value (Some alice)) passes_alice) as (_ & _ & _ & H).
  destruct (H eq_refl eq_refl Hfails) as (Hcurrent & [H001 _] & _).
  split; [exact (proj1 (Hcurrent eq_refl)) | exact H001].
Defined.

(** ** The token over the life of a row *)

Section Lifecycle.
Implicit Types (db : database) (email token : jsstring) (r : Subscriber).

(** Subscribe leaves the store as it was or as its upsert left it. *)
Lemma POST_store env db body :
  store (POST env db body) = db
  ∨ ∃ email,
      store (POST env db body)
      = (upsert_subscriber (NOW env) email (uuidv4 env) db).1.
Proof.
  unfold POST. destruct body as [| | email | v]; [by left | by left | |];
    (destruct (negb (converts _)); [by left |]);
    (destruct (not_email _); [by left |]);
    (destruct (negb _); [by left |]);
    (destruct (select_1 env); [by left |]);
    (destruct (data_query env); [by left |]);
    right;
    match goal with
    | |- context [upsert_subscriber _ ?e _ _] => exists e
    end;
    destruct (upsert_subscriber _ _ _ _) as [db' rows];
    by rewrite after_upsert_store.
Qed.

(** Confirm leaves the store as it was or as its update left it. *)
Lemma GET_store query db (param : option jsstring) :
  c_store (GET query db param) = db
  ∨ ∃ token, param = Some token ∧ query = None
      ∧ c_store (GET query db param) = (confirm_by_token token db).1.
Proof.
  unfold GET. destruct (falsy param) eqn:Hparam; [by left |].
  destruct query; [by left |].
  destruct param as [token |]; [| done].
  right. exists token. simpl default.
  destruct (confirm_by_token token db) as [db' rows] eqn:E.
  by destruct rows.
Qed.

Lemma upsert_subscriber_sound now email token db :
  (∀ e r, subscribers db !! e = Some r → sound_row r) →
  ∀ e r,
    subscribers (upsert_subscriber now email token db).1 !! e = Some r →
    sound_row r.
Proof.
  intros Hdb e r. destruct (decide (e = pg_text email)) as [-> | Hne].
  - destruct (upsert_subscriber_row now email token db)
      as (r' & -> & _ & Htoken & Hstatus).
    intros [= <-]. split; [| by rewrite Htoken].
    rewrite Hstatus.
    destruct (subscribers db !! pg_text email) as [old |] eqn:Hold;
      [| done].
    simpl. by destruct (status old).
  - rewrite upsert_subscriber_other by done. apply Hdb.
Qed.

Lemma confirm_by_token_sound token db :
  (∀ e r, subscribers db !! e = Some r → sound_row r) →
  ∀ e r,
    subscribers (confirm_by_token token db).1 !! e = Some r → sound_row r.
Proof.
  intros Hdb e r. rewrite confirm_by_token_lookup.
  destruct (subscribers db !! e) as [r0 |] eqn:Hr0; [| done].
  simpl. intros [= <-].
  destruct (decide (awaits token r0)); [done |]. by eapply Hdb.
Qed.

Lemma reachable_sound db :
  reachable db → ∀ e r, subscribers db !! e = Some r → sound_row r.
Proof.
  induction 1 as [| rq db Hreach IH].
  - intros e r H. simpl in H. by rewrite lookup_empty in H.
  - destruct rq as [env body | query param]; simpl.
    + destruct (POST_store env db body) as [-> | [email ->]]; [done |].
      by apply upsert_subscriber_sound.
    + destruct (GET_store query db param) as [-> | (token & _ & _ & ->)];
        [done |].
      by apply confirm_by_token_sound.
Qed.
End Lifecycle.

(** C5, as stated, fails on a reachable store: after subscribe, confirm and
    subscribe again, the row is confirmed and holds a non-null token. *)
Lemma confirmed_row_holds_token :
  reachable resubscribed
  ∧ subscribers resubscribed !! alice
    = Some {| id := 1; status := confirmed;
              confirmation_token := Some (js "T2");
              created_at := 7; updated_at := 7 |}.
Proof.
  split; [| by vm_compute].
  unfold resubscribed. do 3 apply reachable_serve. apply reachable_empty.
Qed.

(** C5 (amended): on every store reachable under Subscribe and Confirm, a
    row is pending or confirmed and a pending row holds a non-null token (so
    a null token is found on confirmed rows only, while a confirmed row may
    hold a token, written by a later Subscribe); and a request clears the
    non-null token of a row exactly when it is a Confirm that succeeds with
    the token that this pending row holds. *)
Theorem token_lifecycle (db : database) (rq : request) :
  reachable db →
  ∀ email r,
    subscribers db !! email = Some r →
    sound_row r
    ∧ (confirmation_token r ≠ None →
       ∃ r', subscribers (serve rq db) !! email = Some r'
         ∧ (confirmation_token r' = None ↔ confirms rq db r)).
Proof.
  intros Hreach email r Hr.
  split; [by eapply reachable_sound |].
  intros Hheld. destruct rq as [env body | query param]; simpl.
  - (* Subscribe writes a token or leaves the row *)
    destruct (POST_store env db body) as [-> | [email' ->]].
    + exists r. split; [done |]. by split.
    + destruct (decide (email = pg_text email')) as [-> | Hne].
      * destruct (upsert_subscriber_row (NOW env) email' (uuidv4 env) db)
          as (r' & Hr' & _ & Htoken & _).
        exists r'. split; [done |]. rewrite Htoken. by split.
      * exists r. rewrite upsert_subscriber_other by done.
        split; [done |]. by split.
  - (* Confirm clears the token of the rows it matches *)
    destruct param as [token |];
      [| exists r; rewrite GET_missing_token by done; by split].
    destruct (decide (token = [])) as [-> | Hne];
      [exists r; rewrite GET_missing_token by done; split; [done |];
       split; [done | by intros [? _]] |].
    destruct query as [e |].
    { exists r. unfold GET. rewrite falsy_nonempty by done. simpl.
      split; [done |]. split; [done | by intros [? _]]. }
    destruct (decide (awaits token r)) as [Haw | Hno].
    + assert (¬ none_awaiting db token) as Hsome.
      { intros Hnone. exact (Hnone email r Hr Haw). }
      destruct (GET_match db token Hne Hsome) as [Hresp Hstore].
      exists (confirm_row_of r). rewrite Hstore, Hresp.
      rewrite confirm_by_token_lookup, Hr. simpl.
      rewrite decide_True by done. by split.
    + exists r. split.
      * destruct (GET_store None db (Some token))
          as [-> | (token' & [= <-] & _ & ->)]; [done |].
        rewrite confirm_by_token_lookup, Hr. simpl.
        by rewrite decide_False.
      * split; [done | by intros [_ ?]].
Qed.

Lemma token_lifecycle_witness :
  reachable subscribed_once
  ∧ subscribers subscribed_once !! alice
    = Some {| id := 1; status := pending;
              confirmation_token := Some (js "T1");
              created_at := 7; updated_at := 7 |}
  ∧ ∃ r', subscribers (serve (Confirm None (Some (js "T1"))) subscribed_once)
            !! alice = Some r'
      ∧ confirmation_token r' = None.
Proof.
  assert (reachable subscribed_once) as Hreach.
  { apply reachable_serve, reachable_empty. }
  assert (subscribers subscribed_once !! alice
          = Some {| id := 1; status := pending;
                    confirmation_token := Some (js "T1");
                    created_at := 7; updated_at := 7 |}) as Hrow.
  { vm_compute. reflexivity. }
  split; [exact Hreach |]. split; [exact Hrow |].
  destruct (token_lifecycle subscribed_once (Confirm None (Some (js "T1")))
              Hreach alice _ Hrow) as [_ H].
  destruct (H ltac:(discriminate)) as (r' & Hr' & Hcleared).
  exists r'. split; [exact Hr' |]. apply Hcleared.
  split; [vm_compute; reflexivity | split; reflexivity].
Defined.

(** ** Two Confirm requests at once *)

Section Race.
Variables (token : jsstring) (db0 : database).
Hypothesis token_present : token ≠ [].
Hypothesis token_awaited : ¬ none_awaiting db0 token.

(** A request alone takes its two steps to the outcome of [GET]. *)
Lemma advance_alone query db (param : option jsstring) :
  let '(th, db1) := advance query (received param) db in
  advance query th db1
  = (answered (c_response (GET query db param)), c_store (GET query db param)).
Proof.
  simpl. destruct (falsy param) eqn:Hparam.
  - simpl. by rewrite (GET_missing_token _ _ _ Hparam).
  - destruct param as [t |]; [| done]. done.
Qed.






End Race.






(** * Further properties of the handlers *)

(** ** The addresses [emailRegex] lets through *)

Lemma filter_at_none (l : jsstring) :
  Forall (λ u, not_space_at u = true) l →
  filter (λ u, u = 64%N) l = [].
Proof.
  induction 1 as [| u l Hu _ IH]; [done |].
  rewrite filter_cons_False; [done |].
  intros ->. discriminate Hu.
Qed.

Lemma not_space_at_no_space (l : jsstring) :
  Forall (λ u, not_space_at u = true) l →
  Forall (λ u, white_space u = false) l.
Proof.
  intros H. eapply Forall_impl; [exact H |].
  intros u Hu. unfold not_space_at in Hu.
  apply negb_true_iff, orb_false_iff in Hu. tauto.
Qed.

(** X1: what [emailRegex] accepts is exactly a local part, [@], a domain
    part, a dot and an ending, the three parts non-empty and made of code
    units that are neither white space nor [@] (a dot is allowed in each of
    them). *)
Theorem emailRegex_accepts (s : jsstring) :
  test emailRegex s = true ↔
  ∃ l d e, s = l ++ js "@" ++ d ++ js "." ++ e
    ∧ l ≠ [] ∧ d ≠ [] ∧ e ≠ []
    ∧ Forall (λ u, not_space_at u = true) (l ++ d ++ e).
Proof.
  rewrite test_matches.
  apply emailRegex_language.
Qed.

(** X2: an address that passes the format check has no white space, exactly
    one [@], which is not its first code unit, at least one dot, and at
    least five code units. *)
Theorem accepted_email_shape (s : jsstring) :
  test emailRegex s = true →
  Forall (λ u, white_space u = false) s
  ∧ length (filter (λ u, u = 64%N) s) = 1%nat
  ∧ 46%N ∈ s
  ∧ 5 ≤ length s
  ∧ head s ≠ Some 64%N.
Proof.
  intros H. apply test_matches, emailRegex_language in H
    as (l & d & e & -> & Hl & Hd & He & Hall).
  change (js "@") with [64%N]. change (js ".") with [46%N].
  rewrite !Forall_app in Hall. destruct Hall as (Fl & Fd & Fe).
  repeat split.
  - rewrite !Forall_app. repeat split;
      try (by apply not_space_at_no_space); by repeat constructor.
  - rewrite !filter_app, !(filter_at_none _ Fl), !(filter_at_none _ Fd),
      !(filter_at_none _ Fe). reflexivity.
  - rewrite !elem_of_app. right. right. right. left. by apply list_elem_of_singleton.
  - rewrite !length_app. simpl.
    destruct l, d, e; simpl; try done; lia.
  - destruct l as [| u l]; [done |]. simpl. intros [= ->].
    inversion Fl as [| ? ? Hu _]. discriminate Hu.
Qed.

Lemma emailRegex_accepts_witness :
  test emailRegex alice = true
  ∧ ∃ l d e, alice = l ++ js "@" ++ d ++ js "." ++ e ∧ l ≠ [].
Proof.
  assert (test emailRegex alice = true) as H by (vm_compute; reflexivity).
  split; [exact H |].
  destruct (proj1 (emailRegex_accepts alice) H)
    as (l & d & e & Hs & Hl & _).
  exists l, d, e. split; [exact Hs | exact Hl].
Defined.

Lemma accepted_email_shape_witness :
  test emailRegex alice = true
  ∧ length (filter (λ u, u = 64%N) alice) = 1%nat
  ∧ 5 ≤ length alice.
Proof.
  assert (test emailRegex alice = true) as H by (vm_compute; reflexivity).
  split; [exact H |].
  destruct (accepted_email_shape alice H) as (_ & Hat & _ & Hlen & _).
  split; [exact Hat | exact Hlen].
Defined.

(** ** The subscribe handler, branch by branch *)

(** A source literal is in a list of them. *)
Ltac listed :=
  simpl; apply (bool_decide_unpack _); vm_compute; exact I.

(** The current handler returns before its upsert. *)
Ltac unwritten :=
  left;
  match goal with
  | body : request_body |- _ => destruct body
  end;
  try (by simpl in *);
  unfold POST;
  repeat match goal with
         | H : _ = _ |- _ => rewrite H
         end;
  repeat split; listed.

Section Branches.
Implicit Types (env : environment) (db : database) (body : request_body).

(** Either the handler answers without a write and without the notifier,
    or its upsert ran for a body that passes the checks and it answers by
    the status of the row. *)
Lemma POST_cases env db body :
  (store (POST env db body) = db
   ∧ notifications (calls (POST env db body)) = []
   ∧ response (POST env db body) ∈ unwritten_answers)
  ∨ ∃ r,
      passes body
      ∧ select_1 env = None ∧ data_query env = None
      ∧ store (POST env db body)
        = (upsert_subscriber (NOW env) (email_parameter body) (uuidv4 env)
             db).1
      ∧ subscribers (store (POST env db body)) !! stored_address body
        = Some r
      ∧ confirmation_token r = Some (uuidv4 env)
      ∧ status r = status_after_upsert (subscribers db !! stored_address body)
      ∧ ((status r = confirmed
          ∧ response (POST env db body)
            = json (js "You are already subscribed and confirmed!") 200
          ∧ notifications (calls (POST env db body)) = [])
         ∨ (status r = pending
            ∧ notifications (calls (POST env db body))
              = [notify (stored_address body) (uuidv4 env)]
            ∧ response (POST env db body) =
              match sendConfirmationEmail env (stored_address body)
                      (uuidv4 env) with
              | None =>
                  json (js "Please check your email to confirm your subscription!")
                    200
              | Some _ =>
                  json (js "Failed to send confirmation email. Please try again or contact support.")
                    500
              end)).
Proof.
  destruct (converts body) eqn:Hconverts; [| unwritten].
  destruct (not_email body) eqn:Hpresent; [unwritten |].
  destruct (test emailRegex (email_string body)) eqn:Hformat; [| unwritten].
  destruct (select_1 env) as [e |] eqn:Hping; [unwritten |].
  destruct (data_query env) as [e |] eqn:Hquery; [unwritten |].
  right.
  assert (passes body) as Hvalid by done.
  rewrite (POST_passed _ _ _ Hvalid Hping Hquery).
  rewrite after_upsert_store.
  unfold stored_address.
  destruct (upsert_subscriber_row (NOW env) (email_parameter body)
              (uuidv4 env) db) as (r & Hr & -> & Htoken & Hstatus).
  exists r. do 6 (split; [done |]). split; [done |].
  unfold after_upsert. simpl ur_status. simpl ur_email.
  destruct (status r) eqn:Hs.
  - right. rewrite decide_False by done.
    by destruct (sendConfirmationEmail env _ (uuidv4 env)).
  - left. by rewrite decide_True by done.
  - rewrite status_after_upsert_case in Hstatus.
    by destruct (subscribers db !! _) as [[? [] ? ? ?] |].
Qed.

(** A statement that returns rows has a row that matched. *)
Lemma confirm_by_token_rows token db (row : confirm_row)
    (rows : list confirm_row) :
  (confirm_by_token token db).2 = row :: rows →
  ∃ email r, subscribers db !! email = Some r ∧ awaits token r.
Proof.
  simpl. intros H.
  destruct (map_to_list (filter (λ kr : jsstring * Subscriber,
                                   awaits token kr.2) (subscribers db)))
    as [| [email r] l] eqn:Hl; [done |].
  assert ((email, r) ∈ map_to_list
            (filter (λ kr : jsstring * Subscriber, awaits token kr.2)
               (subscribers db))) as Hin.
  { rewrite Hl. apply elem_of_cons. by left. }
  apply elem_of_map_to_list, map_lookup_filter_Some in Hin as [Hr Haw].
  by exists email, r.
Qed.
End Branches.

(** ** What the handlers answer *)

(** Two source literals differ. *)
Ltac literals_differ H :=
  simpl in H; vm_compute in H; discriminate H.

Lemma Part000_never_no_row (env : environment) (db : database)
    (body : request_body) :
  response (Part000.POST env db body) ≠ no_row_answer.
Proof.
  unfold Part000.POST. destruct body as [| | email | v];
    [intros H; literals_differ H | intros H; literals_differ H | |];
    (destruct (not_email _); [intros H; literals_differ H |]);
    (destruct (negb (converts _)); [intros H; literals_differ H |]);
    (destruct (negb (test _ _)); [intros H; literals_differ H |]);
    cbv zeta;
    (destruct (data_query env); [intros H; literals_differ H |]);
    match goal with
    | |- context [upsert_subscriber_0 _ ?e _ _] =>
        destruct (upsert_subscriber_0_row (NOW env) e (uuidv4 env) db)
          as (r & _ & Hrows & _)
    end;
    destruct (upsert_subscriber_0 _ _ _ _) as [db' rows];
    simpl in Hrows; subst rows;
    (destruct (decide _); [intros H; literals_differ H |]);
    destruct (sendConfirmationEmail _ _ _); intros H; literals_differ H.
Qed.

Lemma Part001_never_no_row (env : environment) (db : database)
    (body : request_body) :
  response (Part001.POST env db body) ≠ no_row_answer.
Proof.
  unfold Part001.POST. destruct body as [| | email | v];
    [intros H; literals_differ H | intros H; literals_differ H | |];
    (destruct (negb (converts _)); [intros H; literals_differ H |]);
    (destruct (not_email _); [intros H; literals_differ H |]);
    (destruct (negb (test _ _)); [intros H; literals_differ H |]);
    cbv zeta;
    (destruct (data_query env); [intros H; literals_differ H |]);
    match goal with
    | |- context [upsert_subscriber_0 _ ?e _ _] =>
        destruct (upsert_subscriber_0_row (NOW env) e (uuidv4 env) db)
          as (r & _ & Hrows & _)
    end;
    destruct (upsert_subscriber_0 _ _ _ _) as [db' rows];
    simpl in Hrows; subst rows;
    (destruct (decide _); [intros H; literals_differ H |]);
    destruct (sendConfirmationEmail _ _ _); intros H; literals_differ H.
Qed.

(** X3: whatever the request, the store and the outside do, the current
    subscribe handler answers with one of nine fixed responses and the
    confirm handler with one of four: no response carries an address, a
    token or the text of an error. The answer of the branch for an upsert
    that returned no row is not among them: that branch is never taken, in
    the current handler and in the two earlier revisions. *)
Theorem fixed_answers (env : environment) (query : option thrown)
    (db : database) (body : request_body) (token : option jsstring) :
  response (POST env db body) ∈ unwritten_answers ++ written_answers
  ∧ c_response (GET query db token) ∈ GET_answers
  ∧ response (POST env db body) ≠ no_row_answer
  ∧ response (Part000.POST env db body) ≠ no_row_answer
  ∧ response (Part001.POST env db body) ≠ no_row_answer.
Proof.
  assert (response (POST env db body) ∈ unwritten_answers ++ written_answers)
    as Hin.
  { apply elem_of_app.
    destruct (POST_cases env db body)
      as [(_ & _ & H) | (r & _ & _ & _ & _ & _ & _ & _ & H)];
      [by left | right].
    destruct H as [(_ & -> & _) | (_ & _ & ->)]; [listed |].
    destruct (sendConfirmationEmail env _ (uuidv4 env)); listed. }
  split; [exact Hin |]. split; [| split; [| split]].
  - unfold GET. destruct (falsy token); [listed |].
    destruct query; [listed |].
    destruct (confirm_by_token _ db) as [db' [| row rows]]; listed.
  - intros Heq. rewrite Heq in Hin.
    apply (bool_decide_pack _) in Hin. vm_compute in Hin. exact Hin.
  - apply Part000_never_no_row.
  - apply Part001_never_no_row.
Qed.

(** ** The three revisions of the subscribe handler *)

Lemma upserts_agree (now : nat) (email token : jsstring) (db : database) :
  (upsert_subscriber now email token db).2
  = (upsert_subscriber_0 now email token db).2
  ∧ id_seq (upsert_subscriber now email token db).1
    = id_seq (upsert_subscriber_0 now email token db).1
  ∧ ∀ e,
      but_timestamps <$> subscribers (upsert_subscriber now email token db).1
                           !! e
      = but_timestamps <$> subscribers
                             (upsert_subscriber_0 now email token db).1 !! e.
Proof.
  unfold upsert_subscriber, upsert_subscriber_0.
  destruct (subscribers db !! pg_text email) as [old |]; simpl;
    (split; [done |]; split; [done |]); intros e;
    (destruct (decide (e = pg_text email)) as [-> | Hne];
     [by rewrite !lookup_insert_eq
     | by rewrite !lookup_insert_ne by congruence]).
Qed.

(** The three revisions on a body that parses, is not null and has an
    email that converts to a string. *)
Lemma revisions_agree_parsed (env : environment) (db : database)
    (body : request_body) :
  body ≠ unparseable → body ≠ json_null → converts body = true →
  select_1 env = None → data_query env = None →
  (∀ to token, sendConfirmationEmail env to token = None) →
  Part000.POST env db body = Part001.POST env db body
  ∧ notifications (calls (POST env db body))
    = notifications (calls (Part000.POST env db body))
  ∧ id_seq (store (POST env db body))
    = id_seq (store (Part000.POST env db body))
  ∧ (∀ e, but_timestamps <$> subscribers (store (POST env db body)) !! e
          = but_timestamps
              <$> subscribers (store (Part000.POST env db body)) !! e)
  ∧ response (POST env db body) = response (Part000.POST env db body).
Proof.
  intros Hparsed Hvalue Hconverts Hping Hquery Hsend.
  destruct body as [| | email | v]; [done | done | |];
    unfold POST, Part000.POST, Part001.POST;
    rewrite Hconverts; simpl negb; cbv iota;
    (destruct (not_email _); [done |]);
    (destruct (negb _); [done |]);
    cbv zeta; rewrite Hping, Hquery;
    match goal with
    | |- context [upsert_subscriber _ ?e _ _] => set (address := e)
    end;
    destruct (upserts_agree (NOW env) address (uuidv4 env) db)
      as (Hrows & Hseq & Hstore);
    destruct (upsert_subscriber_0_row (NOW env) address (uuidv4 env) db)
      as (r & _ & Hrow & _);
    destruct (upsert_subscriber (NOW env) address (uuidv4 env) db)
      as [db1 rows1];
    destruct (upsert_subscriber_0 (NOW env) address (uuidv4 env) db)
      as [db0 rows0];
    simpl in Hrows, Hseq, Hstore, Hrow; subst rows1 rows0;
    unfold after_upsert; simpl ur_status; simpl ur_email;
    (destruct (decide (status r = confirmed)); [done |]);
    by rewrite Hsend.
Qed.

(** X4: when both statements resolve and the notifier delivers, the two
    earlier revisions of the subscribe handler have the same outcome for
    every body, and the current handler makes the same notifier call and
    leaves the same rows, but for their timestamps, which only it writes.
    Its response is theirs exactly when the body parses, is not null and has
    an email that converts to a string: a body that does not parse is
    answered 400 by the current handler and 500 by the earlier revisions,
    and in the two other cases all answer 500, the current handler with
    another message. *)
Theorem revisions_agree (env : environment) (db : database)
    (body : request_body) :
  select_1 env = None → data_query env = None →
  (∀ to token, sendConfirmationEmail env to token = None) →
  let current := POST env db body in
  let part_000 := Part000.POST env db body in
  let part_001 := Part001.POST env db body in
  part_000 = part_001
  ∧ notifications (calls current) = notifications (calls part_000)
  ∧ id_seq (store current) = id_seq (store part_000)
  ∧ (∀ e, but_timestamps <$> subscribers (store current) !! e
          = but_timestamps <$> subscribers (store part_000) !! e)
  ∧ (response current = response part_000 ↔
     body ≠ unparseable ∧ body ≠ json_null ∧ converts body = true)
  ∧ (body = unparseable →
     status_code (response current) = 400
     ∧ status_code (response part_000) = 500)
  ∧ (body = json_null ∨ converts body = false →
     status_code (response current) = 500
     ∧ status_code (response part_000) = 500).
Proof.
  intros Hping Hquery Hsend. cbv zeta.
  destruct body as [| | email | [t s | [s |] p]].
  1, 2, 6:
    split; [reflexivity |]; do 3 (split; [reflexivity |]);
    (split; [split; [intros H; literals_differ H | by intros (? & ? & ?)] |]);
    (split; [first [by intros _ | intros H; discriminate H]
            | first [by intros _ | intros [H | H]; discriminate H]]).
  all:
    match goal with
    | |- context [POST ?env ?db ?b] =>
        destruct (revisions_agree_parsed env db b) as (H1 & H2 & H3 & H4 & H5);
        [done | done | reflexivity | done | done | done |]
    end;
    split; [exact H1 |]; split; [exact H2 |]; split; [exact H3 |];
    (split; [exact H4 |]); (split; [by split |]);
    (split; [intros H; discriminate H | intros [H | H]; discriminate H]).
Qed.

Lemma revisions_agree_witness :
  select_1 (calm (js "T2")) = None ∧ data_query (calm (js "T2")) = None
  ∧ Part000.POST (calm (js "T2")) (one_pending (js "T1")) (json_value (Some alice))
    = Part001.POST (calm (js "T2")) (one_pending (js "T1"))
        (json_value (Some alice))
  ∧ response (POST (calm (js "T2")) (one_pending (js "T1"))
                (json_value (Some alice)))
    = response (Part000.POST (calm (js "T2")) (one_pending (js "T1"))
                  (json_value (Some alice))).
Proof.
  split; [reflexivity |]. split; [reflexivity |].
  destruct (revisions_agree (calm (js "T2")) (one_pending (js "T1"))
              (json_value (Some alice)) eq_refl eq_refl (λ _ _, eq_refl))
    as (H1 & _ & _ & _ & H2 & _).
  split; [exact H1 |]. apply H2. by repeat split.
Defined.

(** ** Answers and writes *)

Lemma status_in_written (r : Response) :
  r ∈ written_answers → status_code r ∉ [400; 503].
Proof.
  unfold written_answers. rewrite !elem_of_cons, elem_of_nil.
  intros [-> | [-> | [-> | []]]];
    apply (bool_decide_unpack _); vm_compute; exact I.
Qed.

(** X5: Confirm answers 200 exactly when it has changed the store; and a
    Subscribe answered 400 or 503 has written nothing and called no
    notifier, while a Subscribe that has changed the store answers with one
    of the three responses that follow the upsert. *)
Theorem answers_and_writes (env : environment) (query : option thrown)
    (db : database) (body : request_body) (token : option jsstring) :
  (status_code (c_response (GET query db token)) = 200
   ↔ c_store (GET query db token) ≠ db)
  ∧ (status_code (response (POST env db body)) ∈ [400; 503] →
     store (POST env db body) = db
     ∧ notifications (calls (POST env db body)) = [])
  ∧ (store (POST env db body) ≠ db →
     response (POST env db body) ∈ written_answers).
Proof.
  split; [| split].
  - destruct (falsy token) eqn:Hparam.
    { rewrite (GET_missing_token _ _ _ Hparam). simpl. by split. }
    destruct token as [t |]; [| done].
    assert (t ≠ []) as Hne by (by intros ->).
    destruct query as [e |].
    { unfold GET. rewrite Hparam. simpl. by split. }
    rewrite (GET_resolved _ _ Hne). cbv zeta.
    destruct (confirm_by_token t db).2 as [| row rows] eqn:Hrows.
    + apply confirm_by_token_no_rows in Hrows.
      rewrite (confirm_by_token_unchanged _ _ Hrows). simpl. by split.
    + split; [intros _ | by intros _].
      destruct (confirm_by_token_rows _ _ _ _ Hrows) as (email & r & Hr & Haw).
      intros Hsame. change ((confirm_by_token t db).1 = db) in Hsame.
      pose proof (confirm_by_token_lookup t db email) as Hrow.
      rewrite Hsame, Hr in Hrow. simpl in Hrow.
      rewrite decide_True in Hrow by done.
      injection Hrow as Hrow. destruct Haw as [_ Hpending].
      rewrite Hrow in Hpending. discriminate Hpending.
  - intros Hstatus.
    destruct (POST_cases env db body)
      as [(? & ? & _) | (r & _ & _ & _ & _ & _ & _ & _ & H)];
      [done |].
    exfalso. revert Hstatus. apply status_in_written.
    destruct H as [(_ & -> & _) | (_ & _ & ->)]; [listed |].
    destruct (sendConfirmationEmail env _ (uuidv4 env)); listed.
  - intros Hchanged.
    destruct (POST_cases env db body)
      as [(? & _) | (r & _ & _ & _ & _ & _ & _ & _ & H)];
      [done |].
    destruct H as [(_ & -> & _) | (_ & _ & ->)]; [listed |].
    destruct (sendConfirmationEmail env _ (uuidv4 env)); listed.
Qed.

Lemma answers_and_writes_witness :
  status_code (c_response (GET None (one_pending (js "T1")) (Some (js "T1"))))
  = 200
  ∧ c_store (GET None (one_pending (js "T1")) (Some (js "T1")))
    ≠ one_pending (js "T1").
Proof.
  assert (status_code
            (c_response (GET None (one_pending (js "T1")) (Some (js "T1"))))
          = 200) as H by (vm_compute; reflexivity).
  split; [exact H |].
  exact (proj1 (proj1 (answers_and_writes (calm []) None
                         (one_pending (js "T1")) unparseable
                         (Some (js "T1")))) H).
Defined.

(** ** Rows over a run of requests *)

Section Rows.
Implicit Types (db : database) (email : jsstring) (r : Subscriber)
  (rq : request) (rqs : list request).

Lemma may_become_refl (s : SubscriberStatus) : may_become s s.
Proof. by destruct s. Qed.

(** What one request does to a row that is there. *)
Lemma serve_row rq db email r :
  subscribers db !! email = Some r →
  ∃ r', subscribers (serve rq db) !! email = Some r'
    ∧ id r' = id r ∧ created_at r' = created_at r
    ∧ may_become (status r) (status r')
    ∧ (status r' = unsubscribed → r' = r).
Proof.
  intros Hr.
  assert (∃ r', subscribers db !! email = Some r'
            ∧ id r' = id r ∧ created_at r' = created_at r
            ∧ may_become (status r) (status r')
            ∧ (status r' = unsubscribed → r' = r)) as Hsame.
  { exists r. repeat split; try done. apply may_become_refl. }
  destruct rq as [env body | query param]; simpl.
  - destruct (POST_store env db body) as [-> | [email' ->]]; [done |].
    destruct (decide (email = pg_text email')) as [-> | Hne];
      [| by rewrite upsert_subscriber_other].
    unfold upsert_subscriber. rewrite Hr. simpl.
    rewrite lookup_insert_eq. eexists. split; [done |]. simpl.
    repeat split; by destruct (status r).
  - destruct (GET_store query db param) as [-> | (token & _ & _ & ->)];
      [done |].
    rewrite confirm_by_token_lookup, Hr. simpl.
    destruct (decide (awaits token r)) as [[_ Hpending] |];
      [| exists r; repeat split; try done; apply may_become_refl].
    eexists. split; [done |]. simpl. rewrite Hpending. by repeat split.
Qed.

(** What one request needs to make a row appear. *)
Lemma serve_new_row rq db email r' :
  subscribers db !! email = None →
  subscribers (serve rq db) !! email = Some r' →
  ∃ env body, rq = Subscribe env body
    ∧ passes body ∧ stored_address body = email
    ∧ status r' = pending ∧ confirmation_token r' = Some (uuidv4 env).
Proof.
  intros Hnone Hr'. destruct rq as [env body | query param]; simpl in Hr'.
  - exists env, body.
    destruct (POST_cases env db body)
      as [(Hdb & _) | (r & Hvalid & _ & _ & Hdb & Hr & Ht & Hs & _)].
    { rewrite Hdb in Hr'. congruence. }
    destruct (decide (email = stored_address body)) as [-> | Hne].
    + rewrite Hr in Hr'. injection Hr' as Heq. subst r'.
      rewrite Hnone in Hs. simpl in Hs.
      exact (conj eq_refl (conj Hvalid (conj eq_refl (conj Hs Ht)))).
    + rewrite Hdb, upsert_subscriber_other in Hr' by done. congruence.
  - destruct (GET_store query db param) as [Hdb | (token & _ & _ & Hdb)];
      rewrite Hdb in Hr'; [congruence |].
    rewrite confirm_by_token_lookup, Hnone in Hr'. discriminate Hr'.
Qed.

Lemma serve_all_cons rq rqs db :
  serve_all (rq :: rqs) db = serve_all rqs (serve rq db).
Proof. reflexivity. Qed.
End Rows.

(** X6: no request deletes a row or gives it another identifier or
    creation time: over any run of Subscribe and Confirm requests, a row
    that is there stays there with its [id] and [created_at]. And a row
    appears only by a Subscribe request whose body passes the checks and
    whose email the store holds as the address of the row; the row is then
    pending and holds the token of that request. *)
Theorem rows_persist (rqs : list request) (rq : request) (db : database)
    (email : jsstring) :
  (∀ r, subscribers db !! email = Some r →
     ∃ r', subscribers (serve_all rqs db) !! email = Some r'
       ∧ id r' = id r ∧ created_at r' = created_at r)
  ∧ (∀ r', subscribers db !! email = None →
       subscribers (serve rq db) !! email = Some r' →
       ∃ env body, rq = Subscribe env body
         ∧ passes body ∧ stored_address body = email
         ∧ status r' = pending ∧ confirmation_token r' = Some (uuidv4 env)).
Proof.
  split; [| intros r'; apply serve_new_row].
  revert db. induction rqs as [| rq' rqs IH]; intros db r Hr.
  - by exists r.
  - rewrite serve_all_cons.
    destruct (serve_row rq' db email r Hr) as (r1 & Hr1 & Hid & Hcreated & _).
    destruct (IH _ _ Hr1) as (r' & Hr' & Hid' & Hcreated').
    exists r'. split; [done |]. split; congruence.
Qed.

Lemma rows_persist_witness :
  subscribers (one_pending (js "T1")) !! alice = Some (pending_row (js "T1"))
  ∧ ∃ r', subscribers
            (serve_all [Confirm None (Some (js "T1"));
                        Subscribe (calm (js "T2")) (json_value (Some alice))]
               (one_pending (js "T1"))) !! alice = Some r'
      ∧ id r' = 1%nat.
Proof.
  pose proof (one_pending_only (js "T1")) as (Hrow & _).
  split; [exact Hrow |].
  destruct (rows_persist
              [Confirm None (Some (js "T1"));
               Subscribe (calm (js "T2")) (json_value (Some alice))]
              (Confirm None None) (one_pending (js "T1")) alice) as [H _].
  destruct (H _ Hrow) as (r' & Hr' & Hid & _).
  exists r'. split; [exact Hr' | exact Hid].
Defined.

(** X7: one request moves the status of a row from pending to confirmed or
    from unsubscribed to pending, or leaves it; over any run of requests a
    confirmed row stays confirmed, and no row becomes unsubscribed: a row
    that is unsubscribed at the end has not been touched. *)
Theorem status_moves (rqs : list request) (rq : request) (db : database)
    (email : jsstring) (r : Subscriber) :
  subscribers db !! email = Some r →
  (∃ r1, subscribers (serve rq db) !! email = Some r1
     ∧ may_become (status r) (status r1))
  ∧ ∃ r', subscribers (serve_all rqs db) !! email = Some r'
      ∧ (status r = confirmed → status r' = confirmed)
      ∧ (status r' = unsubscribed → r' = r).
Proof.
  intros Hr. split.
  - destruct (serve_row rq db email r Hr) as (r1 & Hr1 & _ & _ & Hmove & _).
    by exists r1.
  - clear rq. revert db r Hr.
    induction rqs as [| rq rqs IH]; intros db r Hr.
    + by exists r.
    + rewrite serve_all_cons.
      destruct (serve_row rq db email r Hr)
        as (r1 & Hr1 & _ & _ & Hmove & Hsame).
      destruct (IH _ _ Hr1) as (r' & Hr' & Hsticky & Hsame').
      exists r'. split; [done |]. split.
      * intros Hc. apply Hsticky. rewrite Hc in Hmove.
        by destruct (status r1).
      * intros Hu. specialize (Hsame' Hu). subst r'. by apply Hsame.
Qed.

Lemma status_moves_witness :
  subscribers resubscribed !! alice
  = Some {| id := 1; status := confirmed;
            confirmation_token := Some (js "T2");
            created_at := 7; updated_at := 7 |}
  ∧ ∃ r', subscribers
            (serve_all [Confirm None (Some (js "T2"));
                        Subscribe (calm (js "T3")) (json_value (Some alice))]
               resubscribed) !! alice = Some r'
      ∧ status r' = confirmed.
Proof.
  assert (subscribers resubscribed !! alice
          = Some {| id := 1; status := confirmed;
                    confirmation_token := Some (js "T2");
                    created_at := 7; updated_at := 7 |}) as Hrow.
  { vm_compute. reflexivity. }
  split; [exact Hrow |].
  destruct (status_moves
              [Confirm None (Some (js "T2"));
               Subscribe (calm (js "T3")) (json_value (Some alice))]
              (Confirm None None) resubscribed alice _ Hrow)
    as [_ (r' & Hr' & Hsticky & _)].
  exists r'. split; [exact Hr' | exact (Hsticky eq_refl)].
Defined.

(** ** Tokens *)

Lemma notify_in_notifications (c : call) (cs : list call) :
  c ∈ cs → is_notify c = true → c ∈ notifications cs.
Proof. intros Hin Hc. unfold notifications. by apply list_elem_of_filter. Qed.

(** X8: the notifier is never called before a successful write, and never
    with another token than the stored one: whatever the request, a call
    to the notifier made by the current subscribe handler is its only one,
    follows a body that passed the checks, is addressed to the email of
    that body as the store holds it, and carries the token that the pending
    row of that address holds when the handler returns. *)
Theorem notifier_gets_stored_token (env : environment) (db : database)
    (body : request_body) (to token : jsstring) :
  notify to token ∈ calls (POST env db body) →
  passes body
  ∧ to = stored_address body
  ∧ token = uuidv4 env
  ∧ notifications (calls (POST env db body)) = [notify to token]
  ∧ ∃ r, subscribers (store (POST env db body)) !! to = Some r
      ∧ awaits token r.
Proof.
  intros Hin. apply notify_in_notifications in Hin; [| done].
  destruct (POST_cases env db body)
    as [(_ & Hnone & _)
       | (r & Hvalid & _ & _ & _ & Hr & Ht & _ & H)].
  { rewrite Hnone in Hin. by apply elem_of_nil in Hin. }
  destruct H as [(_ & _ & Hnone) | (Hpending & Hcalls & _)].
  { rewrite Hnone in Hin. by apply elem_of_nil in Hin. }
  rewrite Hcalls in Hin. apply list_elem_of_singleton in Hin.
  injection Hin as -> ->.
  split; [done |]. split; [done |]. split; [done |]. split; [done |].
  exists r. by repeat split.
Qed.

Lemma notifier_gets_stored_token_witness :
  notify alice (js "T1")
    ∈ calls (POST (smtp_down (js "T1")) empty_database
               (json_value (Some alice)))
  ∧ ∃ r, subscribers
           (store (POST (smtp_down (js "T1")) empty_database
                     (json_value (Some alice)))) !! alice = Some r
      ∧ awaits (js "T1") r.
Proof.
  assert (notify alice (js "T1")
            ∈ calls (POST (smtp_down (js "T1")) empty_database
                       (json_value (Some alice)))) as Hin.
  { vm_compute. apply list_elem_of_In. right. right. left. reflexivity. }
  split; [exact Hin |].
  exact (proj2 (proj2 (proj2 (proj2
           (notifier_gets_stored_token _ _ _ _ _ Hin))))).
Defined.

(** X9: subscribing again replaces the token. After two Subscribe requests
    with the same body, which passes the checks and whose address, as the
    store holds it, is not confirmed, with different tokens, the row of
    that address is pending on the second token; a Confirm with the first
    token leaves the row as it is, and a Confirm with the second one
    (non-empty) confirms it. *)
Theorem latest_token_confirms (env1 env2 : environment) (db : database)
    (body : request_body) :
  passes body →
  select_1 env1 = None → data_query env1 = None →
  select_1 env2 = None → data_query env2 = None →
  status_after_upsert (subscribers db !! stored_address body) = pending →
  uuidv4 env1 ≠ uuidv4 env2 →
  let email := stored_address body in
  let db1 := store (POST env1 db body) in
  let db2 := store (POST env2 db1 body) in
  ∃ r, subscribers db2 !! email = Some r
    ∧ awaits (uuidv4 env2) r
    ∧ subscribers (c_store (GET None db2 (Some (uuidv4 env1)))) !! email
      = Some r
    ∧ (uuidv4 env2 ≠ [] →
       subscribers (c_store (GET None db2 (Some (uuidv4 env2)))) !! email
       = Some (confirm_row_of r)).
Proof.
  intros Hvalid Hping1 Hquery1 Hping2 Hquery2 Hpending Hfresh email db1 db2.
  destruct (POST_upsert_effect env1 db body Hvalid Hping1 Hquery1)
    as (_ & r1 & Hr1 & _ & Hs1).
  fold db1 in Hr1. fold email in Hr1, Hs1, Hpending. rewrite Hpending in Hs1.
  destruct (POST_upsert_effect env2 db1 body Hvalid Hping2 Hquery2)
    as (_ & r & Hr & Ht & Hs).
  fold db2 in Hr. fold email in Hr, Hs.
  rewrite Hr1 in Hs. simpl in Hs. rewrite Hs1 in Hs.
  assert (awaits (uuidv4 env2) r) as Haw by done.
  exists r. split; [done |]. split; [done |]. split.
  - destruct (GET_store None db2 (Some (uuidv4 env1)))
      as [-> | (t & [= <-] & _ & ->)]; [done |].
    rewrite confirm_by_token_lookup, Hr. simpl.
    rewrite decide_False; [done |].
    intros [Ht1 _]. rewrite Ht in Ht1. by injection Ht1.
  - intros Hne.
    assert (¬ none_awaiting db2 (uuidv4 env2)) as Hsome.
    { intros Hnone. exact (Hnone email r Hr Haw). }
    destruct (GET_match db2 (uuidv4 env2) Hne Hsome) as [_ ->].
    rewrite confirm_by_token_lookup, Hr. simpl. by rewrite decide_True.
Qed.

Lemma latest_token_confirms_witness :
  passes (json_value (Some alice))
  ∧ status_after_upsert (subscribers empty_database !! alice) = pending
  ∧ js "T1" ≠ js "T2"
  ∧ ∃ r, subscribers
           (store (POST (calm (js "T2"))
                     (store (POST (calm (js "T1")) empty_database
                               (json_value (Some alice))))
                     (json_value (Some alice)))) !! alice = Some r
      ∧ awaits (js "T2") r.
Proof.
  assert (js "T1" ≠ js "T2") as Hfresh by (vm_compute; discriminate).
  split; [exact passes_alice |]. split; [reflexivity |].
  split; [exact Hfresh |].
  destruct (latest_token_confirms (calm (js "T1")) (calm (js "T2"))
              empty_database (json_value (Some alice)) passes_alice
              eq_refl eq_refl eq_refl eq_refl eq_refl Hfresh)
    as (r & Hr & Haw & _).
  exists r. split; [exact Hr | exact Haw].
Defined.

(** X10: one Confirm with a non-empty token, its statement resolving,
    changes exactly the rows that are pending on that token, all of them
    at once: each becomes confirmed with a null token and keeps its [id]
    and timestamps; every other row is left as it was, and no row is
    pending on the token afterwards. *)
Theorem confirm_updates_matching (db : database) (token email : jsstring)
    (r : Subscriber) :
  token ≠ [] →
  subscribers db !! email = Some r →
  let db' := c_store (GET None db (Some token)) in
  (awaits token r →
   subscribers db' !! email
   = Some {| id := id r; status := confirmed; confirmation_token := None;
             created_at := created_at r; updated_at := updated_at r |})
  ∧ (¬ awaits token r → subscribers db' !! email = Some r)
  ∧ none_awaiting db' token.
Proof.
  intros Hne Hr db'.
  assert (db' = (confirm_by_token token db).1) as ->.
  { unfold db'. rewrite (GET_resolved _ _ Hne). cbv zeta.
    by destruct (confirm_by_token token db).2. }
  split; [| split].
  - intros Haw. rewrite confirm_by_token_lookup, Hr. simpl.
    by rewrite decide_True.
  - intros Hno. rewrite confirm_by_token_lookup, Hr. simpl.
    by rewrite decide_False.
  - apply confirm_by_token_consumes.
Qed.

Lemma confirm_updates_matching_witness :
  js "T1" ≠ []
  ∧ subscribers (one_pending (js "T1")) !! alice
    = Some (pending_row (js "T1"))
  ∧ none_awaiting
      (c_store (GET None (one_pending (js "T1")) (Some (js "T1"))))
      (js "T1").
Proof.
  assert (js "T1" ≠ []) as Hne by done.
  pose proof (one_pending_only (js "T1")) as (Hrow & _).
  split; [exact Hne |]. split; [exact Hrow |].
  exact (proj2 (proj2 (confirm_updates_matching _ _ _ _ Hne Hrow))).
Defined.

(** ** Confirm requests with different tokens *)

Section Commute.
Implicit Types (db : database) (t : jsstring).

(** The store a Confirm leaves when its statement resolves. *)
Lemma GET_store_resolved db (param : option jsstring) :
  c_store (GET None db param)
  = if falsy param then db else (confirm_by_token (default [] param) db).1.
Proof.
  destruct (falsy param) eqn:Hparam.
  - by rewrite (GET_missing_token _ _ _ Hparam).
  - destruct param as [t |]; [| done].
    assert (t ≠ []) as Hne by (by intros ->).
    rewrite (GET_resolved _ _ Hne). cbv zeta. simpl default.
    by destruct (confirm_by_token t db).2.
Qed.

Lemma confirm_by_token_commute db (t1 t2 : jsstring) :
  (confirm_by_token t2 (confirm_by_token t1 db).1).1
  = (confirm_by_token t1 (confirm_by_token t2 db).1).1.
Proof.
  apply database_eq; [| reflexivity].
  apply map_eq. intros e. rewrite !confirm_by_token_lookup.
  destruct (subscribers db !! e) as [r |]; [| done]. simpl. f_equal.
  destruct (decide (awaits t1 r)), (decide (awaits t2 r));
    repeat first
      [ rewrite (decide_False (P := awaits _ (confirm_row_of r)))
          by apply confirmed_not_awaiting
      | rewrite decide_True by done
      | rewrite decide_False by done ];
    done.
Qed.

(** A Confirm for another token does not change which rows a token can
    confirm. *)
Lemma confirm_by_token_other db (t1 t2 : jsstring) :
  t1 ≠ t2 →
  none_awaiting (confirm_by_token t1 db).1 t2 ↔ none_awaiting db t2.
Proof.
  intros Hne. split; intros Hnone e r.
  - intros Hr Haw. apply (Hnone e r); [| done].
    rewrite confirm_by_token_lookup, Hr. simpl.
    rewrite decide_False; [done |].
    intros [Ht1 _]. destruct Haw as [Ht2 _]. congruence.
  - rewrite confirm_by_token_lookup.
    destruct (subscribers db !! e) as [r0 |] eqn:Hr0; [| done].
    simpl. intros [= <-].
    destruct (decide (awaits t1 r0)); [apply confirmed_not_awaiting |].
    by apply (Hnone e).
Qed.
End Commute.

(** X11: Confirm requests with different tokens do not interfere. Served
    in either order, their statements resolving, two Confirm requests
    leave the same store; and when their tokens differ, each is answered
    as it would have been without the other. *)
Theorem confirms_commute (db : database) (p1 p2 : option jsstring) :
  c_store (GET None (c_store (GET None db p1)) p2)
  = c_store (GET None (c_store (GET None db p2)) p1)
  ∧ (p1 ≠ p2 →
     c_response (GET None (c_store (GET None db p1)) p2)
     = c_response (GET None db p2)).
Proof.
  split.
  - rewrite !GET_store_resolved.
    destruct (falsy p1), (falsy p2); try done.
    apply confirm_by_token_commute.
  - intros Hne.
    destruct (falsy p2) eqn:H2.
    { by rewrite !(GET_missing_token _ _ _ H2). }
    destruct p2 as [t2 |]; [| done].
    assert (t2 ≠ []) as Hne2 by (by intros ->).
    rewrite GET_store_resolved.
    destruct (falsy p1) eqn:H1; [done |].
    destruct p1 as [t1 |]; [| done]. simpl default.
    assert (t1 ≠ t2) as Hne12 by congruence.
    rewrite !(GET_resolved _ _ Hne2). cbv zeta.
    pose proof (confirm_by_token_other db t1 t2 Hne12) as Hother.
    rewrite <- !confirm_by_token_no_rows in Hother.
    destruct (confirm_by_token t2 (confirm_by_token t1 db).1).2 as [| ? ?],
             (confirm_by_token t2 db).2 as [| ? ?]; try done.
    + discriminate (proj1 Hother eq_refl).
    + discriminate (proj2 Hother eq_refl).
Qed.

Lemma confirms_commute_witness :
  Some (js "T1") ≠ Some (js "T2")
  ∧ c_response
      (GET None (c_store (GET None (one_pending (js "T2")) (Some (js "T1"))))
         (Some (js "T2")))
    = c_response (GET None (one_pending (js "T2")) (Some (js "T2"))).
Proof.
  assert (Some (js "T1") ≠ Some (js "T2")) as Hne
    by (vm_compute; discriminate).
  split; [exact Hne |].
  exact (proj2 (confirms_commute (one_pending (js "T2")) (Some (js "T1"))
                  (Some (js "T2"))) Hne).
Defined.

(** ** The notifier *)

Section Notifier.
Import Email.

Lemma falsy_false (v : option jsstring) :
  falsy v = false → ∃ s, v = Some s ∧ s ≠ [].
Proof. destruct v as [[| u s] |]; try done. intros _. by eexists. Qed.

Lemma unconfigured_throws (cfg : config)
    (sendMail : mailOptions → option smtp_error) (to token : jsstring) :
  falsy (VITE_SMTP_USERNAME cfg) || falsy (VITE_SMTP_PASSWORD cfg)
  || falsy (VITE_BASE_URL cfg) = true →
  ∃ m, Email.sendConfirmationEmail cfg sendMail to token = Some (Error m)
    ∧ ∀ sendMail',
        Email.sendConfirmationEmail cfg sendMail' to token = Some (Error m).
Proof.
  unfold Email.sendConfirmationEmail. intros H.
  destruct (falsy (VITE_SMTP_USERNAME cfg) || falsy (VITE_SMTP_PASSWORD cfg));
    [by eexists |].
  simpl in H. rewrite H. by eexists.
Qed.
End Notifier.

(** X12: the current notifier returns normally exactly when the SMTP user
    name, the password and the base URL are all set and non-empty and the
    transport accepts the mail, which is addressed to the recipient and
    whose link is the base URL, [/confirm-subscription?token=] and the
    token; whatever it throws is an [Error]; and without a complete
    configuration it throws the same [Error] whatever the transport would
    do. *)
Theorem notifier_returns_iff (cfg : Email.config)
    (sendMail : Email.mailOptions → option Email.smtp_error)
    (to token : jsstring) :
  (Email.sendConfirmationEmail cfg sendMail to token = None ↔
   ∃ user password base,
     Email.VITE_SMTP_USERNAME cfg = Some user ∧ user ≠ []
     ∧ Email.VITE_SMTP_PASSWORD cfg = Some password ∧ password ≠ []
     ∧ Email.VITE_BASE_URL cfg = Some base ∧ base ≠ []
     ∧ sendMail
         {| Email.from := [34%N] ++ js "Your Newsletter" ++ [34%N]
                          ++ js " <" ++ user ++ js ">";
            Email.to := to;
            Email.confirmationLink :=
              base ++ js "/confirm-subscription?token=" ++ token |}
       = None)
  ∧ Email.sendConfirmationEmail cfg sendMail to token ≠ Some not_an_Error
  ∧ (falsy (Email.VITE_SMTP_USERNAME cfg)
     || falsy (Email.VITE_SMTP_PASSWORD cfg)
     || falsy (Email.VITE_BASE_URL cfg) = true →
     ∀ sendMail',
       Email.sendConfirmationEmail cfg sendMail' to token
       = Email.sendConfirmationEmail cfg sendMail to token).
Proof.
  split; [| split].
  - split.
    + unfold Email.sendConfirmationEmail.
      destruct (falsy (Email.VITE_SMTP_USERNAME cfg)) eqn:Hu; [done |].
      destruct (falsy (Email.VITE_SMTP_PASSWORD cfg)) eqn:Hp; [done |].
      destruct (falsy (Email.VITE_BASE_URL cfg)) eqn:Hb; [done |].
      apply falsy_false in Hu as (user & -> & ?), Hp as (password & -> & ?),
        Hb as (base & -> & ?).
      simpl. intros Hsent. exists user, password, base.
      do 6 (split; [done |]).
      by destruct (sendMail _).
    + intros (user & password & base & Hu & ? & Hp & ? & Hb & ? & H).
      unfold Email.sendConfirmationEmail. rewrite Hu, Hp, Hb.
      rewrite !falsy_nonempty by done. cbn [orb]. cbv zeta.
      unfold Email.text_of. by rewrite H.
  - unfold Email.sendConfirmationEmail.
    destruct (_ || _); [done |]. destruct (falsy _); [done |].
    by destruct (sendMail _).
  - intros H sendMail'.
    destruct (unconfigured_throws cfg sendMail to token H) as (m & -> & Hm).
    apply Hm.
Qed.

Lemma notifier_returns_iff_witness :
  Email.sendConfirmationEmail configured (λ _, None) alice (js "T1") = None
  ∧ ∃ base, Email.VITE_BASE_URL configured = Some base ∧ base ≠ [].
Proof.
  assert (Email.sendConfirmationEmail configured (λ _, None) alice (js "T1")
          = None) as H by (vm_compute; reflexivity).
  split; [exact H |].
  destruct (proj1 (proj1 (notifier_returns_iff configured (λ _, None) alice
                            (js "T1"))) H)
    as (_ & _ & base & _ & _ & _ & _ & Hbase & Hne & _).
  exists base. split; [exact Hbase | exact Hne].
Defined.

(** X13: with the notifier of [email.ts] lacking its user name, password or
    base URL, a Subscribe request whose body passes the checks and whose
    address, as the store holds it, is not confirmed still writes the
    pending row of that address with its token, and is answered 500 by the
    current handler: every such request leaves a row whose token was never
    sent. *)
Theorem subscribe_unconfigured (cfg : Email.config)
    (sendMail : Email.mailOptions → option Email.smtp_error)
    (env : environment) (db : database) (body : request_body) :
  sendConfirmationEmail env = Email.sendConfirmationEmail cfg sendMail →
  falsy (Email.VITE_SMTP_USERNAME cfg)
  || falsy (Email.VITE_SMTP_PASSWORD cfg)
  || falsy (Email.VITE_BASE_URL cfg) = true →
  passes body → select_1 env = None → data_query env = None →
  status_after_upsert (subscribers db !! stored_address body) = pending →
  let o := POST env db body in
  response o
  = json (js "Failed to send confirmation email. Please try again or contact support.")
      500
  ∧ ∃ r, subscribers (store o) !! stored_address body = Some r
      ∧ awaits (uuidv4 env) r.
Proof.
  intros Hsend Hcfg Hvalid Hping Hquery Hpending o. subst o.
  unfold stored_address in *.
  destruct (unconfigured_throws cfg sendMail
              (pg_text (email_parameter body)) (uuidv4 env) Hcfg)
    as (m & Hthrows & _).
  rewrite (POST_passed _ _ _ Hvalid Hping Hquery), after_upsert_store.
  destruct (upsert_subscriber_row (NOW env) (email_parameter body)
              (uuidv4 env) db) as (r & Hr & -> & Ht & Hs).
  rewrite Hpending in Hs. split.
  - unfold after_upsert. simpl ur_status. simpl ur_email.
    rewrite Hs, decide_False by done. by rewrite Hsend, Hthrows.
  - exists r. by repeat split.
Qed.

Lemma subscribe_unconfigured_witness :
  passes (json_value (Some alice))
  ∧ response (POST (unconfigured (js "T1")) empty_database
                (json_value (Some alice)))
    = json (js "Failed to send confirmation email. Please try again or contact support.")
        500.
Proof.
  split; [exact passes_alice |].
  exact (proj1 (subscribe_unconfigured (Email.mkConfig None None None)
                  (λ _, None) (unconfigured (js "T1")) empty_database
                  (json_value (Some alice))
                  eq_refl eq_refl passes_alice eq_refl eq_refl eq_refl)).
Defined.

(** ** Subscribing again after opting out *)

(** X14: a Subscribe request for an address whose row is unsubscribed, both
    statements resolving, sets the row back to pending with the token of
    the request, keeps its [id] and [created_at], and calls the notifier
    exactly once, with that address and token. *)
Theorem resubscribe_after_unsubscribe (env : environment) (db : database)
    (email : jsstring) (old : Subscriber) :
  accepted email → select_1 env = None → data_query env = None →
  subscribers db !! email = Some old → status old = unsubscribed →
  let o := POST env db (json_value (Some email)) in
  subscribers (store o) !! email
  = Some {| id := id old; status := pending;
            confirmation_token := Some (uuidv4 env);
            created_at := created_at old; updated_at := NOW env |}
  ∧ notifications (calls o) = [notify email (uuidv4 env)].
Proof.
  intros Hvalid Hping Hquery Hold Hstatus o. subst o.
  rewrite (POST_accepted _ _ _ Hvalid Hping Hquery), after_upsert_store.
  unfold upsert_subscriber. rewrite (key_is_text _ _ _ Hold).
  rewrite Hold, Hstatus. simpl. rewrite (key_is_text _ _ _ Hold).
  split; [apply lookup_insert_eq |].
  by destruct (sendConfirmationEmail env email (uuidv4 env)).
Qed.

Lemma resubscribe_after_unsubscribe_witness :
  accepted alice
  ∧ subscribers opted_out !! alice
    = Some {| id := 1; status := unsubscribed; confirmation_token := None;
              created_at := 3; updated_at := 5 |}
  ∧ notifications
      (calls (POST (calm (js "T1")) opted_out (json_value (Some alice))))
    = [notify alice (js "T1")].
Proof.
  assert (subscribers opted_out !! alice
          = Some {| id := 1; status := unsubscribed;
                    confirmation_token := None;
                    created_at := 3; updated_at := 5 |}) as Hrow.
  { vm_compute. reflexivity. }
  split; [exact accepted_alice |]. split; [exact Hrow |].
  exact (proj2 (resubscribe_after_unsubscribe (calm (js "T1")) opted_out
                  alice _ accepted_alice eq_refl eq_refl Hrow eq_refl)).
Defined.
